(** * WiFi fingerprinting with Gaussian-process regression: the notebook's own logic

    A shallow embedding of the cells of [Homework/GP regression/GP regression.ipynb]
    (and of its checkpoint copy): averaging the repeated RSS scans, the search
    grid, the per-AP fitting loop, the MAP grid scorer, the localization error
    and the 10-fold cross validation.

    Conventions.
    - A NumPy float is a real number or NaN ([npfloat]); rounding is not
      modelled, arithmetic on [Num] values is exact.
    - Infinities and overflow matter to the scorer only: it is modelled a
      second time on float64 arrays ([float64]: a finite number, an infinity
      or NaN), with the floating-point operations as parameters, and shown to
      agree with the first model on finite values.
    - A Python exception is a [Raise] of the [result] type; every indexing
      operation that NumPy bound-checks is fallible here as well.
    - The regression library (GPy) is a black box: a record [GPlib] gives the
      type of fitted models, the fitting function and the prediction. *)

From Stdlib Require Import Reals Lra Lia List Arith Bool Sorted.
Import ListNotations.
Local Open Scope R_scope.

(** ** Python: exceptions, indexing, [for] loops *)

Module Py.

Inductive exn : Set :=
| ValueError
| IndexError
| LinAlgError.

Inductive result (A : Type) : Type :=
| Ok (a : A)
| Raise (e : exn).

Arguments Ok {A} a.
Arguments Raise {A} e.

Definition bind {A B : Type} (m : result A) (f : A -> result B) : result B :=
  match m with
  | Ok a => f a
  | Raise e => Raise e
  end.

(** [l[i]] for a non-negative index: [IndexError] out of range. *)
Definition getitem {A : Type} (l : list A) (i : nat) : result A :=
  match nth_error l i with
  | Some a => Ok a
  | None => Raise IndexError
  end.

(** [l[i] = a]: the updated list, [IndexError] out of range. *)
Fixpoint setitem {A : Type} (l : list A) (i : nat) (a : A) : result (list A) :=
  match l, i with
  | [], _ => Raise IndexError
  | _ :: t, O => Ok (a :: t)
  | h :: t, S j => bind (setitem t j a) (fun t' => Ok (h :: t'))
  end.

(** [range(n)]. *)
Definition range (n : nat) : list nat := seq 0 n.

(** [for i in l: s = body(i, s)], stopping at the first exception. *)
Fixpoint for_each {I S : Type} (l : list I) (body : I -> S -> result S) (s : S)
  : result S :=
  match l with
  | [] => Ok s
  | i :: l' => bind (body i s) (for_each l' body)
  end.

(** [math.sqrt]: a [ValueError] (math domain error) on a negative argument. *)
Definition math_sqrt (x : R) : result R :=
  if Rlt_dec x 0 then Raise ValueError else Ok (sqrt x).

End Py.

Export Py.

Declare Scope py_scope.
Delimit Scope py_scope with py.
Notation "x <- m ;; k" := (bind m (fun x => k))
  (at level 61, m at next level, right associativity) : py_scope.
Notation "' p <- m ;; k" := (bind m (fun x => match x with p => k end))
  (at level 61, p pattern, m at next level, right associativity) : py_scope.
Local Open Scope py_scope.

(** ** NumPy

    The functions of NumPy the notebook calls.  They are library code, not the
    repository's: each definition follows the behaviour NumPy documents, on
    lists (an array of two dimensions is the list of its rows). *)

Module Np.

(** A float of an array: NaN marks a missing reading. *)
Inductive npfloat : Type :=
| NaN
| Num (r : R).

Definition isnan (x : npfloat) : bool :=
  match x with
  | NaN => true
  | Num _ => false
  end.

(** [a + b] and [a / n] on floats, NaN being absorbing. *)
Definition add (a b : npfloat) : npfloat :=
  match a, b with
  | Num x, Num y => Num (x + y)
  | _, _ => NaN
  end.

Definition div_int (a : npfloat) (n : nat) : npfloat :=
  match a, n with
  | Num x, S _ => Num (x / INR n)
  | _, _ => NaN
  end.

(** [np.zeros(n)]. *)
Definition zeros (n : nat) : list R := repeat 0 n.

(** [np.sum] of a one-dimensional array. *)
Definition sum (a : list R) : R := fold_right Rplus 0 a.

(** [a[i, j]] on a two-dimensional array held as a list of rows. *)
Definition getitem2 {A : Type} (a : list (list A)) (i j : nat) : result A :=
  row <- getitem a i ;; getitem row j.

(** [a[:, j]]: column [j].  A list of rows does not record the number of
    columns of an array without rows: [column [] j] is the empty column for
    every [j], where NumPy raises [IndexError] for a [j] past the last column.
    Statements about the error behaviour of [column] are made for arrays of
    at least one row. *)
Fixpoint column {A : Type} (a : list (list A)) (j : nat) : result (list A) :=
  match a with
  | [] => Ok []
  | row :: rest =>
      x <- getitem row j ;;
      c <- column rest j ;;
      Ok (x :: c)
  end.

(** [a[idx]] for an array of indices [idx]. *)
Fixpoint take {A : Type} (a : list A) (idx : list nat) : result (list A) :=
  match idx with
  | [] => Ok []
  | i :: rest =>
      x <- getitem a i ;;
      xs <- take a rest ;;
      Ok (x :: xs)
  end.

(** [a[mask]] for a boolean mask: the lengths must agree. *)
Fixpoint compress {A : Type} (a : list A) (mask : list bool) : result (list A) :=
  match a, mask with
  | [], [] => Ok []
  | x :: a', b :: mask' =>
      r <- compress a' mask' ;;
      Ok (if b then x :: r else r)
  | _, _ => Raise IndexError
  end.

(** [np.argmax]: the index of the first occurrence of the maximum;
    a [ValueError] on an empty array. *)
Fixpoint argmax_from (l : list R) (i best_i : nat) (best : R) : nat :=
  match l with
  | [] => best_i
  | x :: t =>
      if Rlt_dec best x then argmax_from t (S i) i x
      else argmax_from t (S i) best_i best
  end.

Definition argmax (l : list R) : result nat :=
  match l with
  | [] => Raise ValueError
  | x :: t => Ok (argmax_from t 1 0 x)
  end.

(** [np.amin], [np.amax] of a one-dimensional array. *)
Definition amin (l : list R) : result R :=
  match l with
  | [] => Raise ValueError
  | x :: t => Ok (fold_left Rmin t x)
  end.

Definition amax (l : list R) : result R :=
  match l with
  | [] => Raise ValueError
  | x :: t => Ok (fold_left Rmax t x)
  end.

(** [np.linspace(start, stop, num)] with the end point: [num] evenly spaced
    samples, [i * step + start] with [step = (stop - start) / (num - 1)], the
    last one set to [stop]. *)
Definition linspace (start stop : R) (num : nat) : list R :=
  match num with
  | O => []
  | S O => [start]
  | S div =>
      let step := (stop - start) / INR div in
      map (fun i => INR i * step + start) (range div) ++ [stop]
  end.

(** [np.meshgrid(x, y)] (Cartesian indexing): two arrays of [len y] rows and
    [len x] columns, the first repeating [x] along the rows, the second
    repeating [y] along the columns. *)
Definition meshgrid (x y : list R) : list (list R) * list (list R) :=
  (map (fun _ => x) y, map (fun yi => map (fun _ => yi) x) y).

(** [a.reshape(n, 1)] of a two-dimensional array, in row-major order;
    a [ValueError] when the array has not [n] elements. *)
Definition reshape_column (a : list (list R)) (n : nat) : result (list R) :=
  let flat := concat a in
  if Nat.eqb (length flat) n then Ok flat else Raise ValueError.

(** [np.nanmean] of one row.  NumPy replaces the NaN entries by zero, sums the
    row, counts the entries that were not NaN and divides; an all-NaN row
    gives 0/0, that is NaN (with the warning "Mean of empty slice").  The sum
    and the quotient are exact here: float64 rounds them, so that NumPy's
    value can differ from this one in the last place and depend on the order
    of the summation. *)
Definition replace_nan (a : list npfloat) (val : R) : list R * list bool :=
  (map (fun x => match x with NaN => val | Num r => r end) a, map isnan a).

Definition count_true (mask : list bool) : nat :=
  length (filter (fun b => b) mask).

Definition divide_by_count (tot : R) (cnt : nat) : npfloat :=
  match cnt with
  | O => NaN
  | S _ => Num (tot / INR cnt)
  end.

Definition nanmean (a : list npfloat) : npfloat :=
  let '(arr, mask) := replace_nan a 0 in
  let cnt := count_true (map negb mask) in
  let tot := sum arr in
  divide_by_count tot cnt.

(** [np.nanmean(a, axis=1)] of a two-dimensional array. *)
Definition nanmean_axis1 (a : list (list npfloat)) : list npfloat :=
  map nanmean a.

(** [a[:, i] = v] needs [v] to have as many entries as [a] has rows, or a
    single entry, which is broadcast. *)
Definition broadcast_to {A : Type} (n : nat) (v : list A) : result (list A) :=
  if Nat.eqb (length v) n then Ok v
  else match v with
       | [x] => Ok (repeat x n)
       | _ => Raise ValueError
       end.

(** [np.mean] of a one-dimensional array: NaN for an empty one. *)
Definition mean (a : list R) : npfloat :=
  divide_by_count (sum a) (length a).

(** [np.linalg.norm(d, axis=0)] of an array of two rows: the 2-norm of each
    column. *)
Definition norm_axis0 (d : list R * list R) : list R :=
  map (fun c => sqrt (fst c * fst c + snd c * snd c)) (combine (fst d) (snd d)).

End Np.

(** ** SciPy

    Library code as well, modelled after its documented behaviour. *)

Module Scipy.

(** [scipy.stats.multivariate_normal.logpdf(x, mean, cov)] for scalars.  The
    third argument is the covariance, for a scalar the variance of the
    distribution.  The covariance must be positive definite: SciPy raises
    [ValueError] when an eigenvalue is negative and [LinAlgError] ("singular
    matrix") when one is zero.  The value is
    [-1/2 * (log (2 pi) + log cov + (x - mean)^2 / cov)]. *)
Definition multivariate_normal_logpdf (x mean cov : R) : result R :=
  if Rlt_dec cov 0 then Raise ValueError
  else if Rle_dec cov 0 then Raise LinAlgError
  else Ok (- (1 / 2) * (ln (2 * PI) + ln cov + (x - mean) * (x - mean) / cov)).

End Scipy.

(** ** scikit-learn *)

Module Sklearn.

(** Modelled from the spec: [sklearn.model_selection.KFold(n_splits)] without
    shuffling is a library class, its code is not part of the repository.  The
    spec has it split [N] samples "into 10 folds of size N/10 (remainder
    distributed across folds)"; as the library documents it, the folds are
    consecutive runs of indices and the first [N mod n_splits] folds get one
    index more.  [split] raises [ValueError] when there are fewer samples than
    folds, and pairs each test fold with the remaining (training) indices. *)
Definition fold_sizes (n_samples n_splits : nat) : list nat :=
  map (fun j => (n_samples / n_splits
                 + (if Nat.ltb j (n_samples mod n_splits) then 1 else 0))%nat)
      (range n_splits).

Fixpoint iter_test_indices (sizes : list nat) (current : nat) : list (list nat) :=
  match sizes with
  | [] => []
  | fold_size :: rest =>
      seq current fold_size :: iter_test_indices rest (current + fold_size)
  end.

Definition isin (i : nat) (l : list nat) : bool := existsb (Nat.eqb i) l.

Definition KFold_split (n_splits n_samples : nat)
  : result (list (list nat * list nat)) :=
  if Nat.ltb n_samples n_splits then Raise ValueError
  else Ok (map (fun test_index =>
                  (filter (fun i => negb (isin i test_index)) (range n_samples),
                   test_index))
               (iter_test_indices (fold_sizes n_samples n_splits) 0)).

End Sklearn.

Export Np.
Export Scipy.
Export Sklearn.

(** ** The regression library (GPy), a black box

    [GPRegression X Y_AP] stands for [GPy.models.GPRegression(X, Y_AP, kernel)]
    followed by [m.optimize(...)]; [predict m x] for the mean and the variance
    that [m.predict] returns at the input point [x].  Both are taken to
    return: exceptions raised inside GPy are not modelled. *)

Definition coord : Type := (R * R)%type.

Record GPlib : Type := {
  GPmodel : Type;
  GPRegression : list coord -> list R -> GPmodel;
  predict : GPmodel -> coord -> R * R
}.

(** ** Cell "Read WiFi and Location Data": the search grid

    [Y] is the location matrix, row 0 the x and row 1 the y coordinates of the
    surveyed locations. *)

Definition N : nat := 50.

(** [num_loc = Y.shape[1]]. *)
Definition num_loc_of (Y : list (list R)) : result nat :=
  Y0 <- getitem Y 0 ;; Ok (length Y0).

(** [min_X, min_Y, max_X, max_Y = [np.amin(Y[0]), np.amin(Y[1]),
    np.amax(Y[0]), np.max(Y[1])]]. *)
Definition search_space (Y : list (list R)) : result (R * R * R * R) :=
  Y0 <- getitem Y 0 ;;
  min_X <- amin Y0 ;;
  Y1 <- getitem Y 1 ;;
  min_Y <- amin Y1 ;;
  max_X <- amax Y0 ;;
  max_Y <- amax Y1 ;;
  Ok (min_X, min_Y, max_X, max_Y).

(** [mesh = np.meshgrid(np.linspace(min_X, max_X, N), np.linspace(min_Y, max_Y, N))],
    [grid = np.array([mesh[0].reshape(N*N,1), mesh[1].reshape(N*N,1)]).squeeze().T]:
    row [q] of [grid] pairs entry [q] of the two flattened meshes. *)
Definition make_grid (Y : list (list R)) : result (list coord) :=
  ' (min_X, min_Y, max_X, max_Y) <- search_space Y ;;
  let mesh := meshgrid (linspace min_X max_X N) (linspace min_Y max_Y N) in
  m0 <- reshape_column (fst mesh) (N * N) ;;
  m1 <- reshape_column (snd mesh) (N * N) ;;
  Ok (combine m0 m1).

(** ** Cell "Compute X_mean"

    [X_raw[i]] holds the scans of location [i], one row per access point.
    The notebook fills column [i] of a [num_AP x num_loc] array and transposes
    it at the end; the rows of the transposed array are built here, one per
    location. *)
Definition compute_X_mean (X_raw : list (list (list npfloat))) (num_AP num_loc : nat)
  : result (list (list npfloat)) :=
  for_each (range num_loc)
    (fun i X_mean =>
       scans <- getitem X_raw i ;;
       col <- broadcast_to num_AP (nanmean_axis1 scans) ;;
       Ok (X_mean ++ [col]))
    [].

(** [Y_new = Y.T[:,0:2]]: one coordinate pair per location. *)
Definition Y_new_of (Y : list (list R)) : result (list coord) :=
  Y0 <- getitem Y 0 ;;
  Y1 <- getitem Y 1 ;;
  Ok (combine Y0 Y1).

(** ** The fitting loop ([GP], [GP_index])

    In the notebook [X_train] holds the coordinates and [Y_train] the averaged
    RSS of the training locations. *)

(** [Y_AP[~np.isnan(Y_AP)]], as reals. *)
Definition dropna (a : list npfloat) : list R :=
  flat_map (fun v => match v with NaN => [] | Num r => [r] end) a.

(** The body of the loop, for access point [i]; the state is [(GP, GP_index)]. *)
Definition fit_body (gp : GPlib) (X_train : list coord)
  (Y_train : list (list npfloat)) (i : nat) (st : list (GPmodel gp) * list nat)
  : result (list (GPmodel gp) * list nat) :=
  col <- column Y_train i ;;
  X <- compress X_train (map (fun v => negb (isnan v)) col) ;;
  let Y_AP := dropna col in
  if Nat.ltb 10 (length X)
  then Ok (fst st ++ [GPRegression gp X Y_AP], snd st ++ [i])
  else Ok st.

Definition fit_GPs (gp : GPlib) (X_train : list coord) (Y_train : list (list npfloat))
  (num_AP : nat) : result (list (GPmodel gp) * list nat) :=
  for_each (range num_AP) (fit_body gp X_train Y_train) ([], []).

(** ** The prediction arrays [mean] and [var]

    One row per grid point, one column per fitted regressor (the notebook
    assigns them column by column). *)
Definition predict_grid (gp : GPlib) (GP : list (GPmodel gp)) (grid : list coord)
  : list (list R) * list (list R) :=
  (map (fun x => map (fun m => fst (predict gp m x)) GP) grid,
   map (fun x => map (fun m => snd (predict gp m x)) GP) grid).

(** ** The MAP grid scorer *)

(** [scipy.stats.multivariate_normal.logpdf(RSS, m, math.sqrt(v))]: the
    log-density the scorer adds for a reading [RSS] when the regressor predicts
    mean [m] and variance [v].  All three are finite here; [scorer_density_f]
    below is the same call on float64 values. *)
Definition scorer_density (RSS m v : R) : result R :=
  s <- math_sqrt v ;;
  multivariate_normal_logpdf RSS m s.

(** The body of the innermost loop:
    [RSS = Y_test[num,GP_index[k]]]
    [if (~np.isnan(RSS)): sum[p] += logpdf(RSS, mean[p,k], math.sqrt(var[p,k]))].
    [np.isnan] gives a NumPy boolean, on which [~] is the logical negation.
    The augmented assignment reads [sum[p]] before it evaluates the right-hand
    side. *)
Definition add_logpdf (mean var : list (list R)) (GP_index : list nat)
  (Y_test : list (list npfloat)) (num p k : nat) (sum : list R) : result (list R) :=
  gi <- getitem GP_index k ;;
  RSS <- getitem2 Y_test num gi ;;
  match RSS with
  | NaN => Ok sum
  | Num rss =>
      cur <- getitem sum p ;;
      m <- getitem2 mean p k ;;
      v <- getitem2 var p k ;;
      l <- scorer_density rss m v ;;
      setitem sum p (cur + l)
  end.

(** [sum = np.zeros(grid.shape[0])] and the two loops over [p] and [k]. *)
Definition MAP_sum (grid : list coord) (mean var : list (list R)) (GP_index : list nat)
  (GP_num : nat) (Y_test : list (list npfloat)) (num : nat) : result (list R) :=
  for_each (range (length grid))
    (fun p sum =>
       for_each (range GP_num) (add_logpdf mean var GP_index Y_test num p) sum)
    (zeros (length grid)).

(** [max_index = np.argmax(sum)]. *)
Definition MAP_index (grid : list coord) (mean var : list (list R)) (GP_index : list nat)
  (GP_num : nat) (Y_test : list (list npfloat)) (num : nat) : result nat :=
  sum <- MAP_sum grid mean var GP_index GP_num Y_test num ;;
  argmax sum.

(** The location inferred for test sample [num]: [grid[max_index]]. *)
Definition MAP_estimate (grid : list coord) (mean var : list (list R))
  (GP_index : list nat) (GP_num : nat) (Y_test : list (list npfloat)) (num : nat)
  : result coord :=
  max_index <- MAP_index grid mean var GP_index GP_num Y_test num ;;
  getitem grid max_index.

(** The loop over the test samples, filling [Y_hat = np.zeros([num_test,2])]. *)
Definition MAP_scorer (grid : list coord) (mean var : list (list R))
  (GP_index : list nat) (GP_num : nat) (Y_test : list (list npfloat)) (num_test : nat)
  : result (list coord) :=
  for_each (range num_test)
    (fun num Y_hat =>
       c <- MAP_estimate grid mean var GP_index GP_num Y_test num ;;
       setitem Y_hat num c)
    (repeat (0, 0) num_test).

(** ** The MAP grid scorer on float64 arrays

    The arrays of the notebook hold float64 values: besides the finite numbers
    these are the two infinities, the result of an overflow, and NaN, the
    result of an invalid operation.  The scorer is defined a second time on
    such arrays, to state which of these values make it raise.  The loops are
    the same, with
    - [math.sqrt], which returns NaN for NaN and infinity for infinity, and
      raises [ValueError] on a negative argument, minus infinity included;
    - SciPy's [logpdf], which checks the covariance before it computes:
      [ValueError] when it is infinite or NaN ("array must not contain infs
      or NaNs") or negative, [LinAlgError] when it is zero; the observation
      and the mean are not checked;
    - the value of the density and the floating-point addition of [+=] as
      parameters ([float_arith]): they may round, overflow to an infinity,
      underflow or give NaN;
    - [np.argmax], for which NaN is maximal: the index of the first NaN if
      there is one, of the first maximum otherwise. *)

Inductive float64 : Type :=
| Finite (r : R)
| PosInf
| NegInf
| NotANumber.

(** [np.isnan(x)]. *)
Definition isnan_f (x : float64) : bool :=
  match x with
  | NotANumber => true
  | _ => false
  end.

(** [a <= b] on floats: false when either is NaN. *)
Definition fle (a b : float64) : bool :=
  match a, b with
  | NotANumber, _ => false
  | _, NotANumber => false
  | NegInf, _ => true
  | _, PosInf => true
  | Finite x, Finite y => if Rle_dec x y then true else false
  | _, _ => false
  end.

(** What the floating-point unit and SciPy compute: [fadd a b] for [a + b],
    [flogpdf x mean cov] for the log-density at [x] once the covariance [cov]
    has passed SciPy's checks (it is then finite and positive). *)
Record float_arith : Type := {
  fadd : float64 -> float64 -> float64;
  flogpdf : float64 -> float64 -> R -> float64
}.

(** [math.sqrt(x)] on a float.  The square root of a positive float is a
    positive float, that of zero is zero. *)
Definition math_sqrt_f (x : float64) : result float64 :=
  match x with
  | Finite r => if Rlt_dec r 0 then Raise ValueError else Ok (Finite (sqrt r))
  | PosInf => Ok PosInf
  | NegInf => Raise ValueError
  | NotANumber => Ok NotANumber
  end.

(** [scipy.stats.multivariate_normal.logpdf(x, mean, cov)] on floats. *)
Definition multivariate_normal_logpdf_f (fa : float_arith) (x mean cov : float64)
  : result float64 :=
  match cov with
  | Finite c =>
      if Rlt_dec c 0 then Raise ValueError
      else if Rle_dec c 0 then Raise LinAlgError
      else Ok (flogpdf fa x mean c)
  | _ => Raise ValueError
  end.

(** [np.argmax] on floats. *)
Fixpoint argmax_f_from (l : list float64) (i max_ind : nat) (mp : float64) : nat :=
  match l with
  | [] => max_ind
  | x :: t =>
      if fle x mp then argmax_f_from t (S i) max_ind mp
      else if isnan_f x then i
      else argmax_f_from t (S i) i x
  end.

Definition argmax_f (l : list float64) : result nat :=
  match l with
  | [] => Raise ValueError
  | x :: t => if isnan_f x then Ok 0%nat else Ok (argmax_f_from t 1 0 x)
  end.

(** [np.zeros(n)] as floats. *)
Definition zeros_f (n : nat) : list float64 := repeat (Finite 0) n.

(** [scipy.stats.multivariate_normal.logpdf(RSS, m, math.sqrt(v))]. *)
Definition scorer_density_f (fa : float_arith) (RSS m v : float64) : result float64 :=
  s <- math_sqrt_f v ;;
  multivariate_normal_logpdf_f fa RSS m s.

(** The body of the innermost loop, as [add_logpdf]. *)
Definition add_logpdf_f (fa : float_arith) (mean var : list (list float64))
  (GP_index : list nat) (Y_test : list (list float64)) (num p k : nat)
  (sum : list float64) : result (list float64) :=
  gi <- getitem GP_index k ;;
  RSS <- getitem2 Y_test num gi ;;
  if isnan_f RSS then Ok sum
  else
    cur <- getitem sum p ;;
    m <- getitem2 mean p k ;;
    v <- getitem2 var p k ;;
    l <- scorer_density_f fa RSS m v ;;
    setitem sum p (fadd fa cur l).

Definition MAP_sum_f (fa : float_arith) (grid : list coord)
  (mean var : list (list float64)) (GP_index : list nat) (GP_num : nat)
  (Y_test : list (list float64)) (num : nat) : result (list float64) :=
  for_each (range (length grid))
    (fun p sum =>
       for_each (range GP_num) (add_logpdf_f fa mean var GP_index Y_test num p) sum)
    (zeros_f (length grid)).

Definition MAP_index_f (fa : float_arith) (grid : list coord)
  (mean var : list (list float64)) (GP_index : list nat) (GP_num : nat)
  (Y_test : list (list float64)) (num : nat) : result nat :=
  sum <- MAP_sum_f fa grid mean var GP_index GP_num Y_test num ;;
  argmax_f sum.

Definition MAP_estimate_f (fa : float_arith) (grid : list coord)
  (mean var : list (list float64)) (GP_index : list nat) (GP_num : nat)
  (Y_test : list (list float64)) (num : nat) : result coord :=
  max_index <- MAP_index_f fa grid mean var GP_index GP_num Y_test num ;;
  getitem grid max_index.

Definition MAP_scorer_f (fa : float_arith) (grid : list coord)
  (mean var : list (list float64)) (GP_index : list nat) (GP_num : nat)
  (Y_test : list (list float64)) (num_test : nat) : result (list coord) :=
  for_each (range num_test)
    (fun num Y_hat =>
       c <- MAP_estimate_f fa grid mean var GP_index GP_num Y_test num ;;
       setitem Y_hat num c)
    (repeat (0, 0) num_test).

(** ** Cell "Compute the prediction errors" *)

(** [a.T] for an array of coordinate pairs: the row of x and the row of y. *)
Definition transpose (a : list coord) : list R * list R :=
  (map fst a, map snd a).

(** [a - b] on arrays of two rows; the shapes agree in the notebook, a
    mismatch is a [ValueError]. *)
Definition subtract (a b : list R * list R) : result (list R * list R) :=
  if Nat.eqb (length (fst a)) (length (fst b))
     && Nat.eqb (length (snd a)) (length (snd b))
  then Ok (map (fun c => fst c - snd c) (combine (fst a) (fst b)),
           map (fun c => fst c - snd c) (combine (snd a) (snd b)))
  else Raise ValueError.

(** [errors = np.linalg.norm(Y_testing - Y_hat, axis=0)] with
    [Y_testing = X_test.T] and [Y_hat = Y_hat.T]. *)
Definition localization_errors (X_test Y_hat : list coord) : result (list R) :=
  let Y_testing := transpose X_test in
  let Y_hat := transpose Y_hat in
  d <- subtract Y_testing Y_hat ;;
  Ok (norm_axis0 d).

(** ** Cell "10-fold validation" *)

(** One pass of the loop over the folds, up to [Y_hat]: the true and the
    inferred coordinates of the fold's test samples. *)
Definition cv_fold (gp : GPlib) (num_AP : nat) (grid : list coord) (X : list coord)
  (y : list (list npfloat)) (fold : list nat * list nat)
  : result (list coord * list coord) :=
  let train_index := fst fold in
  let test_index := snd fold in
  X_train <- take X train_index ;;
  X_test <- take X test_index ;;
  Y_train <- take y train_index ;;
  Y_test <- take y test_index ;;
  fitted <- fit_GPs gp X_train Y_train num_AP ;;
  let GP := fst fitted in
  let GP_index := snd fitted in
  let GP_num := length GP in
  let arrays := predict_grid gp GP grid in
  Y_hat <- MAP_scorer grid (fst arrays) (snd arrays) GP_index GP_num Y_test
             (length X_test) ;;
  Ok (X_test, Y_hat).

(** The rest of the pass: [error_sum += np.mean(errors)]. *)
Definition cv_step (gp : GPlib) (num_AP : nat) (grid : list coord) (X : list coord)
  (y : list (list npfloat)) (fold : list nat * list nat) (error_sum : npfloat)
  : result npfloat :=
  r <- cv_fold gp num_AP grid X y fold ;;
  errors <- localization_errors (fst r) (snd r) ;;
  Ok (add error_sum (mean errors)).

(** The whole cell: [cross_validation_error = error_sum/10]. *)
Definition cross_validation (gp : GPlib) (num_AP : nat) (grid : list coord)
  (X_raw : list (list (list npfloat))) (Y : list (list R)) : result npfloat :=
  num_loc <- num_loc_of Y ;;
  X_mean <- compute_X_mean X_raw num_AP num_loc ;;
  Y_new <- Y_new_of Y ;;
  let X := Y_new in
  let y := X_mean in
  folds <- KFold_split 10 (length X) ;;
  error_sum <- for_each folds (cv_step gp num_AP grid X y) (Num 0) ;;
  Ok (div_int error_sum 10).

(** ** Reference definitions used in the statements *)

(** The log-density of the normal distribution of mean [m] and variance [c]
    at [x]: the value [multivariate_normal_logpdf] returns when it returns. *)
Definition normal_logpdf_var (x m c : R) : R :=
  - (1 / 2) * (ln (2 * PI) + ln c + (x - m) * (x - m) / c).

(** The log-density of the normal distribution of mean [m] and standard
    deviation [sd] at [x], as the spec words it. *)
Definition normal_logpdf_sd (x m sd : R) : R :=
  - ln sd - (1 / 2) * ln (2 * PI) - (x - m) * (x - m) / (2 * (sd * sd)).

(** The log-density the scorer adds for an observation [x] when the regressor
    predicts mean [m] and variance [v]. *)
Definition scorer_logpdf (x m v : R) : R :=
  normal_logpdf_var x m (sqrt v).

(** The reading of test sample [num] for the [k]-th fitted access point. *)
Definition observed (GP_index : list nat) (Y_test : list (list npfloat)) (num k : nat)
  : npfloat :=
  nth (nth k GP_index 0%nat) (nth num Y_test []) NaN.

(** What the [k]-th fitted access point contributes at grid point [p]. *)
Definition contribution (mean var : list (list R)) (GP_index : list nat)
  (Y_test : list (list npfloat)) (num p k : nat) : R :=
  match observed GP_index Y_test num k with
  | NaN => 0
  | Num rss => scorer_logpdf rss (nth k (nth p mean []) 0) (nth k (nth p var []) 0)
  end.

(** The summed log-density at grid point [p]. *)
Definition score (mean var : list (list R)) (GP_index : list nat) (GP_num : nat)
  (Y_test : list (list npfloat)) (num p : nat) : R :=
  Np.sum (map (contribution mean var GP_index Y_test num p) (range GP_num)).

(** The same sum with the density of the spec: standard deviation [sqrt v]. *)
Definition contribution_sd (mean var : list (list R)) (GP_index : list nat)
  (Y_test : list (list npfloat)) (num p k : nat) : R :=
  match observed GP_index Y_test num k with
  | NaN => 0
  | Num rss =>
      normal_logpdf_sd rss (nth k (nth p mean []) 0) (sqrt (nth k (nth p var []) 0))
  end.

Definition score_sd (mean var : list (list R)) (GP_index : list nat) (GP_num : nat)
  (Y_test : list (list npfloat)) (num p : nat) : R :=
  Np.sum (map (contribution_sd mean var GP_index Y_test num p) (range GP_num)).

(** [i] is the first index at which [f] is maximal among the indices below [n]. *)
Definition first_argmax (f : nat -> R) (n i : nat) : Prop :=
  (i < n)%nat
  /\ (forall j, (j < n)%nat -> f j <= f i)
  /\ (forall j, (j < i)%nat -> f j < f i).

(** The inputs of the scorer fit together for test sample [num]: the reading
    of each fitted access point exists, and where it is not NaN the mean and
    the variance exist at every grid point. *)
Definition readings_defined (GP_index : list nat) (GP_num : nat)
  (Y_test : list (list npfloat)) (num : nat) : Prop :=
  forall k, (k < GP_num)%nat ->
    exists gi o, getitem GP_index k = Ok gi /\ getitem2 Y_test num gi = Ok o.

Definition predictions_defined (grid : list coord) (mean var : list (list R))
  (GP_num : nat) : Prop :=
  forall p k, (p < length grid)%nat -> (k < GP_num)%nat ->
    exists m v, getitem2 mean p k = Ok m /\ getitem2 var p k = Ok v.

Definition variances_positive (grid : list coord) (var : list (list R))
  (GP_num : nat) : Prop :=
  forall p k, (p < length grid)%nat -> (k < GP_num)%nat ->
    0 < nth k (nth p var []) 0.

(** The same for the scorer on float64 arrays: every reading the loops index
    exists, and every prediction exists with a variance that is finite and
    strictly positive. *)
Definition readings_defined_f (GP_index : list nat) (GP_num : nat)
  (Y_test : list (list float64)) (num : nat) : Prop :=
  forall k, (k < GP_num)%nat ->
    exists gi o, getitem GP_index k = Ok gi /\ getitem2 Y_test num gi = Ok o.

Definition variances_finite_positive (grid : list coord)
  (mean var : list (list float64)) (GP_num : nat) : Prop :=
  forall p k, (p < length grid)%nat -> (k < GP_num)%nat ->
    exists m v,
      getitem2 mean p k = Ok m /\ getitem2 var p k = Ok (Finite v) /\ 0 < v.

(** Exact arithmetic: the floating-point operations without rounding, on
    finite values those of the first model. *)
Definition exact_arith : float_arith :=
  {| fadd := fun a b =>
       match a, b with
       | NotANumber, _ => NotANumber
       | _, NotANumber => NotANumber
       | Finite x, Finite y => Finite (x + y)
       | PosInf, NegInf => NotANumber
       | NegInf, PosInf => NotANumber
       | PosInf, _ => PosInf
       | _, PosInf => PosInf
       | NegInf, _ => NegInf
       | _, NegInf => NegInf
       end;
     flogpdf := fun x m c =>
       match x, m with
       | Finite x, Finite m => Finite (normal_logpdf_var x m c)
       | NotANumber, _ => NotANumber
       | _, NotANumber => NotANumber
       | PosInf, PosInf => NotANumber
       | NegInf, NegInf => NotANumber
       | _, _ => NegInf
       end |}.

(** A reading of the first model as a float64. *)
Definition to_float64 (x : npfloat) : float64 :=
  match x with
  | NaN => NotANumber
  | Num r => Finite r
  end.

(** The arithmetic mean of a list of reals and the Euclidean distance of two
    points of the plane. *)
Definition arithmetic_mean (l : list R) : R := Np.sum l / INR (length l).

Definition euclidean_distance (a b : coord) : R :=
  sqrt ((fst a - fst b) * (fst a - fst b) + (snd a - snd b) * (snd a - snd b)).

(** The readings of a row that are not NaN. *)
Definition present (a : list npfloat) : list R := dropna a.

(** The number of training locations whose averaged RSS of access point [i] is
    not NaN, and the training data of that access point: the coordinates of
    these locations and their readings. *)
Definition support (Y_train : list (list npfloat)) (i : nat) : nat :=
  count_true (map (fun row => negb (isnan (nth i row NaN))) Y_train).

Definition training_inputs (X_train : list coord) (Y_train : list (list npfloat))
  (i : nat) : list coord :=
  map fst (filter (fun c => negb (isnan (nth i (snd c) NaN)))
             (combine X_train Y_train)).

Definition training_targets (Y_train : list (list npfloat)) (i : nat) : list R :=
  dropna (map (fun row => nth i row NaN) Y_train).

(** Whether access point [i] has the support the fitting loop asks for, and
    the regressor fitted for it. *)
Definition fitted_AP (Y_train : list (list npfloat)) (i : nat) : bool :=
  Nat.ltb 10 (support Y_train i).

Definition regressor_of (gp : GPlib) (X_train : list coord)
  (Y_train : list (list npfloat)) (i : nat) : GPmodel gp :=
  GPRegression gp (training_inputs X_train Y_train i) (training_targets Y_train i).

(** The mean error of one fold: the arithmetic mean, over the fold's test
    samples, of the distance between the true and the inferred coordinates. *)
Definition fold_mean_error (r : list coord * list coord) : R :=
  arithmetic_mean
    (map (fun c => euclidean_distance (fst c) (snd c)) (combine (fst r) (snd r))).

(** A regression library to run the notebook on concrete data: the fitted
    model is the mean of the targets, predicted everywhere with variance 1. *)
Definition constant_regressor : GPlib :=
  {| GPmodel := R;
     GPRegression := fun _ Y_AP => arithmetic_mean Y_AP;
     predict := fun m _ => (m, 1) |}.

(** What access point [i] adds to the score of test sample [num] at the
    location [g], when the regressor fitted for [i] itself predicts there. *)
Definition AP_logpdf (gp : GPlib) (X_train : list coord)
  (Y_train Y_test : list (list npfloat)) (num i : nat) (g : coord) : R :=
  match nth i (nth num Y_test []) NaN with
  | NaN => 0
  | Num rss =>
      scorer_logpdf rss
        (fst (predict gp (regressor_of gp X_train Y_train i) g))
        (snd (predict gp (regressor_of gp X_train Y_train i) g))
  end.

(** ** Python and NumPy: basic facts *)

Lemma bind_Ok {A B : Type} (m : result A) (f : A -> result B) (b : B) :
  bind m f = Ok b -> exists a, m = Ok a /\ f a = Ok b.
Proof.
  destruct m as [a|e]; simpl; intros H; [exists a; auto | discriminate].
Qed.

Lemma getitem_Ok {A : Type} (l : list A) (i : nat) (a : A) :
  getitem l i = Ok a <-> nth_error l i = Some a.
Proof.
  unfold getitem. destruct (nth_error l i); split; intros H; inversion H; auto.
Qed.

Lemma getitem_lt {A : Type} (l : list A) (i : nat) (d : A) :
  (i < length l)%nat -> getitem l i = Ok (nth i l d).
Proof.
  intros H. apply getitem_Ok. now apply nth_error_nth'.
Qed.

Lemma getitem_nth {A : Type} (l : list A) (i : nat) (a d : A) :
  getitem l i = Ok a -> nth i l d = a /\ (i < length l)%nat.
Proof.
  intros H. apply getitem_Ok in H. split.
  - now apply nth_error_nth.
  - apply nth_error_Some. congruence.
Qed.

Lemma getitem2_nth {A : Type} (a : list (list A)) (i j : nat) (x d : A) :
  getitem2 a i j = Ok x -> nth j (nth i a []) d = x.
Proof.
  unfold getitem2. intros H. apply bind_Ok in H as (row & Hr & Hx).
  destruct (getitem_nth _ _ _ [] Hr) as [Hr' _]. subst row.
  now destruct (getitem_nth _ _ _ d Hx) as [Hx' _].
Qed.

Lemma setitem_middle {A : Type} (pre post : list A) (x a : A) :
  setitem (pre ++ x :: post) (length pre) a = Ok (pre ++ a :: post).
Proof.
  induction pre as [|h pre IH]; simpl; [reflexivity|]. now rewrite IH.
Qed.

Lemma getitem_middle {A : Type} (pre post : list A) (x : A) :
  getitem (pre ++ x :: post) (length pre) = Ok x.
Proof.
  apply getitem_Ok. rewrite nth_error_app2 by lia.
  now rewrite Nat.sub_diag.
Qed.

Lemma for_each_app {I S : Type} (l1 l2 : list I) (body : I -> S -> result S) (s : S) :
  for_each (l1 ++ l2) body s = bind (for_each l1 body s) (for_each l2 body).
Proof.
  revert s. induction l1 as [|i l1 IH]; intros s; simpl; [reflexivity|].
  destruct (body i s); simpl; auto.
Qed.

Lemma for_each_ext {I S : Type} (l : list I) (body body' : I -> S -> result S) (s : S) :
  (forall i s', In i l -> body i s' = body' i s') ->
  for_each l body s = for_each l body' s.
Proof.
  revert s. induction l as [|i l IH]; intros s H; simpl; [reflexivity|].
  rewrite H by now left. destruct (body' i s); simpl; auto.
  apply IH. intros j s' Hj. apply H. now right.
Qed.

Lemma range_S (n : nat) : range (S n) = range n ++ [n].
Proof. unfold range. now rewrite seq_S. Qed.

Lemma sum_app (l1 l2 : list R) : Np.sum (l1 ++ l2) = Np.sum l1 + Np.sum l2.
Proof.
  induction l1 as [|x l1 IH]; simpl; [lra|]. rewrite IH. lra.
Qed.

Lemma math_sqrt_pos (v : R) : 0 <= v -> math_sqrt v = Ok (sqrt v).
Proof.
  intros H. unfold math_sqrt. destruct (Rlt_dec v 0); [lra | reflexivity].
Qed.

Lemma math_sqrt_neg (v : R) : v < 0 -> math_sqrt v = Raise ValueError.
Proof.
  intros H. unfold math_sqrt. destruct (Rlt_dec v 0); [reflexivity | lra].
Qed.

Lemma logpdf_pos (x m c : R) :
  0 < c -> multivariate_normal_logpdf x m c = Ok (normal_logpdf_var x m c).
Proof.
  intros H. unfold multivariate_normal_logpdf.
  destruct (Rlt_dec c 0); [lra|]. destruct (Rle_dec c 0); [lra | reflexivity].
Qed.

Lemma scorer_density_pos (x m v : R) :
  0 < v -> scorer_density x m v = Ok (scorer_logpdf x m v).
Proof.
  intros H. unfold scorer_density, scorer_logpdf.
  rewrite math_sqrt_pos by lra. cbn [bind].
  apply logpdf_pos. now apply sqrt_lt_R0.
Qed.

(** ** The scorer's loops compute the summed log-density *)

Section ScorerLoops.

Variables (grid : list coord) (mean var : list (list R)).
Variables (GP_index : list nat) (GP_num : nat).
Variables (Y_test : list (list npfloat)) (num : nat).

Hypothesis readings : readings_defined GP_index GP_num Y_test num.

Hypothesis predictions :
  forall p k, (p < length grid)%nat -> (k < GP_num)%nat ->
    observed GP_index Y_test num k <> NaN ->
    exists m v, getitem2 mean p k = Ok m /\ getitem2 var p k = Ok v /\ 0 < v.

Lemma add_logpdf_step (p k : nat) (pre post : list R) (acc : R) :
  (p < length grid)%nat -> (k < GP_num)%nat -> length pre = p ->
  add_logpdf mean var GP_index Y_test num p k (pre ++ acc :: post)
  = Ok (pre ++ (acc + contribution mean var GP_index Y_test num p k) :: post).
Proof.
  intros Hp Hk Hpre.
  destruct (readings k Hk) as (gi & o & Hgi & Ho).
  assert (Hobs : observed GP_index Y_test num k = o).
  { unfold observed. destruct (getitem_nth _ _ _ 0%nat Hgi) as [-> _].
    now apply getitem2_nth. }
  unfold add_logpdf, contribution. rewrite Hgi. simpl. rewrite Ho. simpl.
  rewrite Hobs. destruct o as [|rss].
  - now rewrite Rplus_0_r.
  - destruct (predictions p k Hp Hk) as (m & v & Hm & Hv & Hpos).
    { rewrite Hobs. discriminate. }
    rewrite <- Hpre, getitem_middle. simpl. rewrite Hpre.
    rewrite Hm, Hv. simpl.
    rewrite (getitem2_nth _ _ _ _ 0 Hm), (getitem2_nth _ _ _ _ 0 Hv).
    rewrite scorer_density_pos by exact Hpos. cbn [bind].
    rewrite <- Hpre. apply setitem_middle.
Qed.

Lemma inner_loop (p n : nat) (pre post : list R) (acc : R) :
  (p < length grid)%nat -> (n <= GP_num)%nat -> length pre = p ->
  for_each (range n) (add_logpdf mean var GP_index Y_test num p) (pre ++ acc :: post)
  = Ok (pre ++ (acc + Np.sum (map (contribution mean var GP_index Y_test num p)
                                  (range n))) :: post).
Proof.
  intros Hp Hn Hpre. induction n as [|n IH].
  - simpl. now rewrite Rplus_0_r.
  - rewrite range_S, for_each_app, IH by lia. simpl.
    rewrite add_logpdf_step by (auto; lia).
    rewrite map_app, sum_app. simpl. do 3 f_equal. lra.
Qed.

Lemma outer_loop (n : nat) :
  (n <= length grid)%nat ->
  for_each (range n)
    (fun p sum =>
       for_each (range GP_num) (add_logpdf mean var GP_index Y_test num p) sum)
    (zeros (length grid))
  = Ok (map (score mean var GP_index GP_num Y_test num) (range n)
        ++ zeros (length grid - n)).
Proof.
  induction n as [|n IH]; intros Hn.
  - simpl. now rewrite Nat.sub_0_r.
  - rewrite range_S, for_each_app, IH by lia. simpl.
    replace (length grid - n)%nat with (S (length grid - S n)) by lia.
    unfold zeros at 1. simpl.
    rewrite inner_loop; try lia.
    + rewrite Rplus_0_l, map_app. simpl. now rewrite <- app_assoc.
    + rewrite length_map. unfold range. now rewrite length_seq.
Qed.

Lemma MAP_sum_value :
  MAP_sum grid mean var GP_index GP_num Y_test num
  = Ok (map (score mean var GP_index GP_num Y_test num) (range (length grid))).
Proof.
  unfold MAP_sum. rewrite outer_loop by lia.
  rewrite Nat.sub_diag. simpl. now rewrite app_nil_r.
Qed.

End ScorerLoops.

(** ** [np.argmax] returns the first maximum *)

Lemma argmax_from_spec (t pre : list R) (bi : nat) (b : R) :
  (bi < length pre)%nat ->
  nth bi pre 0 = b ->
  (forall j, (j < length pre)%nat -> nth j pre 0 <= b) ->
  (forall j, (j < bi)%nat -> nth j pre 0 < b) ->
  first_argmax (fun j => nth j (pre ++ t) 0) (length (pre ++ t))
    (argmax_from t (length pre) bi b).
Proof.
  revert pre bi b. induction t as [|x t IH]; intros pre bi b Hbi Hb Hle Hlt.
  - simpl. rewrite app_nil_r. subst b. repeat split; auto.
  - simpl. replace (pre ++ x :: t) with ((pre ++ [x]) ++ t)
      by now rewrite <- app_assoc.
    assert (Hlen : length (pre ++ [x]) = S (length pre))
      by (rewrite length_app; simpl; lia).
    rewrite <- Hlen.
    assert (Hlast : nth (length pre) (pre ++ [x]) 0 = x)
      by (rewrite app_nth2, Nat.sub_diag by lia; reflexivity).
    destruct (Rlt_dec b x) as [Hbx|Hbx]; apply IH.
    + lia.
    + exact Hlast.
    + intros j Hj. destruct (Nat.eq_dec j (length pre)) as [->|Hne].
      * rewrite Hlast. lra.
      * rewrite app_nth1 by lia.
        assert (nth j pre 0 <= b) by (apply Hle; lia). lra.
    + intros j Hj. rewrite app_nth1 by lia.
      assert (nth j pre 0 <= b) by (apply Hle; lia). lra.
    + lia.
    + rewrite app_nth1 by lia. exact Hb.
    + intros j Hj. destruct (Nat.eq_dec j (length pre)) as [->|Hne].
      * rewrite Hlast. lra.
      * rewrite app_nth1 by lia. apply Hle. lia.
    + intros j Hj. rewrite app_nth1 by lia. now apply Hlt.
Qed.

Lemma argmax_spec (l : list R) :
  l <> [] ->
  exists i, argmax l = Ok i /\ first_argmax (fun j => nth j l 0) (length l) i.
Proof.
  destruct l as [|x t]; [congruence|]. intros _.
  exists (argmax_from t 1 0 x). split; [reflexivity|].
  apply (argmax_from_spec t [x] 0%nat x); simpl; try lia; auto.
  - intros j Hj. replace j with 0%nat by lia. lra.
Qed.

Lemma first_argmax_unique (f : nat -> R) (n i j : nat) :
  first_argmax f n i -> first_argmax f n j -> i = j.
Proof.
  intros (Hi & Hmax_i & Hfirst_i) (Hj & Hmax_j & Hfirst_j).
  destruct (Nat.lt_trichotomy i j) as [H|[H|H]]; auto.
  - specialize (Hfirst_j i H). specialize (Hmax_i j Hj). lra.
  - specialize (Hfirst_i j H). specialize (Hmax_j i Hi). lra.
Qed.

Lemma first_argmax_ext (f g : nat -> R) (n i : nat) :
  (forall j, (j < n)%nat -> f j = g j) -> first_argmax f n i -> first_argmax g n i.
Proof.
  intros Hfg (Hi & Hmax & Hfirst). repeat split; auto.
  - intros j Hj. rewrite <- !Hfg by lia. auto.
  - intros j Hj. rewrite <- !Hfg by lia. auto.
Qed.

Lemma nth_map_range (f : nat -> R) (n j : nat) :
  (j < n)%nat -> nth j (map f (range n)) 0 = f j.
Proof.
  intros Hj. unfold range.
  rewrite (nth_indep _ 0 (f 0%nat)) by now rewrite length_map, length_seq.
  rewrite map_nth, seq_nth by lia. reflexivity.
Qed.

Lemma argmax_map_range (f : nat -> R) (n : nat) :
  (0 < n)%nat ->
  exists i, argmax (map f (range n)) = Ok i /\ first_argmax f n i.
Proof.
  intros Hn. destruct (argmax_spec (map f (range n))) as (i & Hi & Hspec).
  - destruct n; [lia|]. discriminate.
  - exists i. split; [exact Hi|].
    unfold range in *. rewrite length_map, length_seq in Hspec.
    eapply first_argmax_ext; [|exact Hspec].
    intros j Hj. now apply nth_map_range.
Qed.

(** ** The scorer returns the first grid point of maximal score *)

Lemma MAP_index_spec grid mean var GP_index GP_num Y_test num :
  readings_defined GP_index GP_num Y_test num ->
  (forall p k, (p < length grid)%nat -> (k < GP_num)%nat ->
     observed GP_index Y_test num k <> NaN ->
     exists m v, getitem2 mean p k = Ok m /\ getitem2 var p k = Ok v /\ 0 < v) ->
  (0 < length grid)%nat ->
  exists i,
    MAP_index grid mean var GP_index GP_num Y_test num = Ok i
    /\ first_argmax (score mean var GP_index GP_num Y_test num) (length grid) i.
Proof.
  intros Hr Hp Hgrid. unfold MAP_index.
  rewrite (MAP_sum_value grid mean var GP_index GP_num Y_test num Hr Hp). simpl.
  now apply argmax_map_range.
Qed.

Lemma MAP_estimate_spec grid mean var GP_index GP_num Y_test num :
  readings_defined GP_index GP_num Y_test num ->
  (forall p k, (p < length grid)%nat -> (k < GP_num)%nat ->
     observed GP_index Y_test num k <> NaN ->
     exists m v, getitem2 mean p k = Ok m /\ getitem2 var p k = Ok v /\ 0 < v) ->
  (0 < length grid)%nat ->
  exists i,
    MAP_index grid mean var GP_index GP_num Y_test num = Ok i
    /\ MAP_estimate grid mean var GP_index GP_num Y_test num = Ok (nth i grid (0, 0))
    /\ first_argmax (score mean var GP_index GP_num Y_test num) (length grid) i.
Proof.
  intros Hr Hp Hgrid.
  destruct (MAP_index_spec grid mean var GP_index GP_num Y_test num Hr Hp Hgrid)
    as (i & Hi & Hmax).
  exists i. repeat split; try apply Hmax; auto.
  unfold MAP_estimate. rewrite Hi. simpl.
  apply getitem_lt. apply Hmax.
Qed.

Lemma MAP_estimate_in_grid grid mean var GP_index GP_num Y_test num c :
  MAP_estimate grid mean var GP_index GP_num Y_test num = Ok c -> In c grid.
Proof.
  unfold MAP_estimate. intros H. apply bind_Ok in H as (i & _ & Hc).
  apply getitem_Ok in Hc. eapply nth_error_In; eauto.
Qed.

Lemma predictions_of grid mean var GP_num :
  predictions_defined grid mean var GP_num ->
  variances_positive grid var GP_num ->
  forall p k, (p < length grid)%nat -> (k < GP_num)%nat ->
    exists m v, getitem2 mean p k = Ok m /\ getitem2 var p k = Ok v /\ 0 < v.
Proof.
  intros Hd Hpos p k Hp Hk. destruct (Hd p k Hp Hk) as (m & v & Hm & Hv).
  exists m, v. repeat split; auto.
  rewrite <- (getitem2_nth _ _ _ _ 0 Hv). now apply Hpos.
Qed.

(** The loop over the test samples stores the estimate of each sample. *)
Lemma setitem_repeat_step {A : Type} (f : nat -> A) (d : A) (n m : nat) :
  setitem (map f (range n) ++ repeat d (S m)) n (f n)
  = Ok (map f (range (S n)) ++ repeat d m).
Proof.
  change (repeat d (S m)) with (d :: repeat d m).
  replace n with (length (map f (range n))) at 2
    by (unfold range; now rewrite length_map, length_seq).
  rewrite setitem_middle, range_S, map_app. simpl. now rewrite <- app_assoc.
Qed.

Lemma MAP_scorer_value grid mean var GP_index GP_num Y_test num_test
  (estimate : nat -> coord) :
  (forall num, (num < num_test)%nat ->
     MAP_estimate grid mean var GP_index GP_num Y_test num = Ok (estimate num)) ->
  MAP_scorer grid mean var GP_index GP_num Y_test num_test
  = Ok (map estimate (range num_test)).
Proof.
  intros Hest. unfold MAP_scorer.
  assert (Hloop : forall n, (n <= num_test)%nat ->
    for_each (range n)
      (fun num Y_hat =>
         c <- MAP_estimate grid mean var GP_index GP_num Y_test num ;;
         setitem Y_hat num c)
      (repeat (0, 0) num_test)
    = Ok (map estimate (range n) ++ repeat (0, 0) (num_test - n))).
  { induction n as [|n IH]; intros Hn.
    - simpl. now rewrite Nat.sub_0_r.
    - rewrite range_S, for_each_app, IH by lia. simpl.
      rewrite Hest by lia. simpl.
      replace (num_test - n)%nat with (S (num_test - S n)) by lia.
      rewrite setitem_repeat_step, range_S. reflexivity. }
  rewrite Hloop by lia. rewrite Nat.sub_diag. simpl. now rewrite app_nil_r.
Qed.

(** ** Sums of contributions *)

Lemma sum_map_zero {A : Type} (f : A -> R) (l : list A) :
  (forall a, In a l -> f a = 0) -> Np.sum (map f l) = 0.
Proof.
  induction l as [|a l IH]; intros H; simpl; [reflexivity|].
  rewrite (H a) by now left. rewrite IH; [lra|]. intros b Hb. apply H. now right.
Qed.

Lemma sum_map_single (f : nat -> R) (n k0 : nat) :
  (k0 < n)%nat ->
  (forall k, (k < n)%nat -> k <> k0 -> f k = 0) ->
  Np.sum (map f (range n)) = f k0.
Proof.
  intros Hk0 Hz. unfold range.
  replace n with (k0 + S (n - S k0))%nat by lia.
  rewrite seq_app, map_app, sum_app. simpl.
  rewrite !sum_map_zero; [lra| |].
  - intros k Hk. apply in_seq in Hk. apply Hz; lia.
  - intros k Hk. apply in_seq in Hk. apply Hz; lia.
Qed.

Lemma map_zero_range (f : nat -> R) (n : nat) :
  (forall p, (p < n)%nat -> f p = 0) -> map f (range n) = zeros n.
Proof.
  intros H. induction n as [|n IH]; [reflexivity|].
  rewrite range_S, map_app, IH by (intros; apply H; lia). simpl.
  rewrite H by lia. unfold zeros.
  change [0] with (repeat 0 1). rewrite <- repeat_app. f_equal. lia.
Qed.

Lemma argmax_from_repeat (b : R) (n i bi : nat) :
  argmax_from (repeat b n) i bi b = bi.
Proof.
  revert i. induction n as [|n IH]; intros i; simpl; [reflexivity|].
  destruct (Rlt_dec b b); [lra | apply IH].
Qed.

(** ** The density: what the scorer adds for one reading *)

Lemma logpdf_at_mean_is_larger (x m c1 c2 : R) :
  0 < c1 -> c1 < c2 -> normal_logpdf_var x m c2 < normal_logpdf_var x x c1.
Proof.
  intros H1 H12. unfold normal_logpdf_var.
  assert (Hln : ln c1 < ln c2) by now apply ln_increasing.
  assert (Hsq : 0 <= (x - m) * (x - m) / c2).
  { apply Rmult_le_pos; [apply Rle_0_sqr|]. left. apply Rinv_0_lt_compat. lra. }
  replace ((x - x) * (x - x) / c1) with 0 by (field; lra).
  lra.
Qed.

(** C2: when a test sample has no reading (all NaN) from the fitted access
    points and the grid has at least one point, the summed log-density is zero
    at every grid point, [np.argmax] returns index 0 and the scorer returns
    the first grid point. *)
Theorem all_missing_selects_first_grid_point
  (g0 : coord) (rest : list coord) (mean var : list (list R))
  (GP_index : list nat) (GP_num : nat) (Y_test : list (list npfloat)) (num : nat) :
  (forall k, (k < GP_num)%nat ->
     exists gi, getitem GP_index k = Ok gi /\ getitem2 Y_test num gi = Ok NaN) ->
  MAP_sum (g0 :: rest) mean var GP_index GP_num Y_test num
  = Ok (zeros (length (g0 :: rest)))
  /\ MAP_index (g0 :: rest) mean var GP_index GP_num Y_test num = Ok 0%nat
  /\ MAP_estimate (g0 :: rest) mean var GP_index GP_num Y_test num = Ok g0.
Proof.
  intros Hnan.
  assert (Hobs : forall k, (k < GP_num)%nat -> observed GP_index Y_test num k = NaN).
  { intros k Hk. destruct (Hnan k Hk) as (gi & Hgi & Ho). unfold observed.
    destruct (getitem_nth _ _ _ 0%nat Hgi) as [-> _]. now apply getitem2_nth. }
  assert (Hsum : MAP_sum (g0 :: rest) mean var GP_index GP_num Y_test num
                 = Ok (zeros (length (g0 :: rest)))).
  { rewrite MAP_sum_value.
    - f_equal. apply map_zero_range. intros p _. unfold score.
      apply sum_map_zero. intros k Hk. apply in_seq in Hk.
      unfold contribution. now rewrite Hobs by lia.
    - intros k Hk. destruct (Hnan k Hk) as (gi & Hgi & Ho). now exists gi, NaN.
    - intros p k _ Hk Hne. now rewrite Hobs in Hne. }
  assert (Hidx : MAP_index (g0 :: rest) mean var GP_index GP_num Y_test num
                 = Ok 0%nat).
  { unfold MAP_index. rewrite Hsum. simpl. unfold argmax.
    now rewrite argmax_from_repeat. }
  repeat split; auto.
  unfold MAP_estimate. now rewrite Hidx.
Qed.

Lemma all_missing_selects_first_grid_point_witness :
  MAP_estimate [(1, 2); (3, 4)] [[5]; [6]] [[-1]; [0]] [1%nat] 1
    [[Num 7; NaN]] 0
  = Ok (1, 2).
Proof.
  apply (all_missing_selects_first_grid_point (1, 2) [(3, 4)] [[5]; [6]]
           [[-1]; [0]] [1%nat] 1 [[Num 7; NaN]] 0).
  intros k Hk. exists 1%nat. destruct k; [split; reflexivity | lia].
Defined.

(** C9: a test sample read on a single fitted access point [k0], with a
    reading equal to the mean predicted at grid point [g], where the predicted
    variance is positive and smaller than at every other grid point: the
    summed log-density is strictly lower at every other grid point and the
    scorer selects [g]. *)
Theorem single_AP_exact_match_selected
  (grid : list coord) (mean var : list (list R)) (GP_index : list nat)
  (GP_num : nat) (Y_test : list (list npfloat)) (num k0 g : nat) (x : R) :
  readings_defined GP_index GP_num Y_test num ->
  predictions_defined grid mean var GP_num ->
  (k0 < GP_num)%nat ->
  observed GP_index Y_test num k0 = Num x ->
  (forall k, (k < GP_num)%nat -> k <> k0 -> observed GP_index Y_test num k = NaN) ->
  (g < length grid)%nat ->
  nth k0 (nth g mean []) 0 = x ->
  0 < nth k0 (nth g var []) 0 ->
  (forall p, (p < length grid)%nat -> p <> g ->
     nth k0 (nth g var []) 0 < nth k0 (nth p var []) 0) ->
  (forall p, (p < length grid)%nat -> p <> g ->
     score mean var GP_index GP_num Y_test num p
     < score mean var GP_index GP_num Y_test num g)
  /\ MAP_index grid mean var GP_index GP_num Y_test num = Ok g
  /\ MAP_estimate grid mean var GP_index GP_num Y_test num = Ok (nth g grid (0, 0)).
Proof.
  intros Hr Hd Hk0 Hx Hnan Hg Hmean Hvg Hvar.
  assert (Hscore : forall p,
            score mean var GP_index GP_num Y_test num p
            = scorer_logpdf x (nth k0 (nth p mean []) 0) (nth k0 (nth p var []) 0)).
  { intros p. unfold score. rewrite (sum_map_single _ GP_num k0 Hk0).
    - unfold contribution. now rewrite Hx.
    - intros k Hk Hne. unfold contribution. now rewrite Hnan. }
  assert (Hlow : forall p, (p < length grid)%nat -> p <> g ->
            score mean var GP_index GP_num Y_test num p
            < score mean var GP_index GP_num Y_test num g).
  { intros p Hp Hne. rewrite !Hscore, Hmean. unfold scorer_logpdf.
    specialize (Hvar p Hp Hne).
    apply logpdf_at_mean_is_larger.
    - now apply sqrt_lt_R0.
    - apply sqrt_lt_1; lra. }
  assert (Hpos : forall p k, (p < length grid)%nat -> (k < GP_num)%nat ->
            observed GP_index Y_test num k <> NaN ->
            exists m v, getitem2 mean p k = Ok m /\ getitem2 var p k = Ok v /\ 0 < v).
  { intros p k Hp Hk Hobs. destruct (Nat.eq_dec k k0) as [->|Hne].
    - destruct (Hd p k0 Hp Hk0) as (m & v & Hm & Hv). exists m, v.
      repeat split; auto. rewrite <- (getitem2_nth _ _ _ _ 0 Hv).
      destruct (Nat.eq_dec p g) as [->|Hpg]; [exact Hvg|].
      specialize (Hvar p Hp Hpg). lra.
    - now rewrite Hnan in Hobs. }
  destruct (MAP_estimate_spec grid mean var GP_index GP_num Y_test num Hr Hpos)
    as (i & Hi & Hest & Hmax); [lia|].
  assert (i = g) as ->.
  { apply (first_argmax_unique _ _ _ _ Hmax). repeat split; auto.
    - intros j Hj. destruct (Nat.eq_dec j g) as [->|Hne]; [lra|].
      left. now apply Hlow.
    - intros j Hj. apply Hlow; lia. }
  auto.
Qed.

Lemma single_AP_exact_match_selected_witness :
  MAP_estimate [(0, 0); (1, 0); (2, 0)] [[-60; -70]; [-50; -71]; [-40; -72]]
    [[4; 1]; [1; 1]; [9; 1]] [0%nat; 2%nat] 2 [[Num (-50); Num (-80); NaN]] 0
  = Ok (1, 0).
Proof.
  apply (single_AP_exact_match_selected
           [(0, 0); (1, 0); (2, 0)] [[-60; -70]; [-50; -71]; [-40; -72]]
           [[4; 1]; [1; 1]; [9; 1]] [0%nat; 2%nat] 2
           [[Num (-50); Num (-80); NaN]] 0%nat 0%nat 1%nat (-50)).
  - intros k Hk. destruct k as [|[|k]]; [| |lia].
    + exists 0%nat, (Num (-50)). split; reflexivity.
    + exists 2%nat, NaN. split; reflexivity.
  - intros p k Hp Hk. simpl in Hp.
    destruct p as [|[|[|p]]]; [| | |lia];
      (destruct k as [|[|k]]; [| |lia]); eexists; eexists; split; reflexivity.
  - lia.
  - reflexivity.
  - intros k Hk Hne. destruct k as [|[|k]]; [congruence|reflexivity|lia].
  - simpl. lia.
  - reflexivity.
  - simpl. lra.
  - intros p Hp Hne. simpl in Hp.
    destruct p as [|[|[|p]]]; [|congruence| |lia]; simpl; lra.
Defined.

(** The scorer is total on arrays that fit together, with a grid of at least
    one point and positive variances. *)
Lemma MAP_scorer_total
  (grid : list coord) (mean var : list (list R)) (GP_index : list nat)
  (GP_num : nat) (Y_test : list (list npfloat)) (num_test : nat) :
  (0 < length grid)%nat ->
  predictions_defined grid mean var GP_num ->
  variances_positive grid var GP_num ->
  (forall num, (num < num_test)%nat -> readings_defined GP_index GP_num Y_test num) ->
  exists Y_hat,
    MAP_scorer grid mean var GP_index GP_num Y_test num_test = Ok Y_hat
    /\ length Y_hat = num_test
    /\ forall num, (num < num_test)%nat ->
         MAP_estimate grid mean var GP_index GP_num Y_test num
         = Ok (nth num Y_hat (0, 0)).
Proof.
  intros Hgrid Hd Hpos Hr.
  set (estimate := fun num =>
         match MAP_estimate grid mean var GP_index GP_num Y_test num with
         | Ok c => c
         | Raise _ => (0, 0)
         end).
  assert (Hest : forall num, (num < num_test)%nat ->
            MAP_estimate grid mean var GP_index GP_num Y_test num = Ok (estimate num)).
  { intros num Hnum.
    destruct (MAP_estimate_spec grid mean var GP_index GP_num Y_test num (Hr num Hnum))
      as (i & _ & Hi & _); auto.
    - intros p k Hp Hk _. now apply (predictions_of grid mean var GP_num).
    - unfold estimate. now rewrite Hi. }
  exists (map estimate (range num_test)). split; [|split].
  - now apply MAP_scorer_value.
  - unfold range. now rewrite length_map, length_seq.
  - intros num Hnum.
    assert (Hnth : nth num (map estimate (range num_test)) (0, 0) = estimate num).
    { unfold range. rewrite (nth_indep _ (0, 0) (estimate 0%nat))
        by now rewrite length_map, length_seq.
      now rewrite map_nth, seq_nth. }
    rewrite Hnth. now apply Hest.
Qed.

(** ** The scorer on float64 arrays: what overflow can and cannot do *)

Lemma setitem_lt {A : Type} (l : list A) (i : nat) (a : A) :
  (i < length l)%nat -> exists l', setitem l i a = Ok l' /\ length l' = length l.
Proof.
  revert i. induction l as [|h l IH]; intros i Hi; simpl in Hi; [lia|].
  destruct i as [|i]; simpl.
  - now exists (a :: l).
  - destruct (IH i) as (l' & Hl' & Hlen); [lia|]. rewrite Hl'. simpl.
    exists (h :: l'). split; [reflexivity|]. simpl. now rewrite Hlen.
Qed.

Lemma for_each_total {I S : Type} (Inv : S -> Prop) (l : list I)
  (body : I -> S -> result S) (s : S) :
  (forall i s0, In i l -> Inv s0 -> exists s1, body i s0 = Ok s1 /\ Inv s1) ->
  Inv s -> exists s', for_each l body s = Ok s' /\ Inv s'.
Proof.
  revert s. induction l as [|i l IH]; intros s Hbody Hs; simpl.
  - now exists s.
  - destruct (Hbody i s (or_introl eq_refl) Hs) as (s1 & Hrun & Hs1).
    rewrite Hrun. simpl. apply IH; [|exact Hs1].
    intros j s0 Hj. apply Hbody. now right.
Qed.

Lemma scorer_density_f_total (fa : float_arith) (RSS m : float64) (v : R) :
  0 < v ->
  scorer_density_f fa RSS m (Finite v) = Ok (flogpdf fa RSS m (sqrt v)).
Proof.
  intros Hv. unfold scorer_density_f, math_sqrt_f.
  destruct (Rlt_dec v 0) as [Hneg|_]; [lra|]. cbn [bind].
  unfold multivariate_normal_logpdf_f.
  assert (Hs : 0 < sqrt v) by now apply sqrt_lt_R0.
  destruct (Rlt_dec (sqrt v) 0) as [Hneg|_]; [lra|].
  destruct (Rle_dec (sqrt v) 0) as [Hle|_]; [lra|]. reflexivity.
Qed.

(** A variance that is plus infinity or NaN reaches SciPy as a covariance
    that is infinite or NaN, and minus infinity stops [math.sqrt]: the density
    raises [ValueError] whatever the observation and the mean. *)
Lemma scorer_density_f_not_finite (fa : float_arith) (RSS m v : float64) :
  (forall r, v <> Finite r) -> scorer_density_f fa RSS m v = Raise ValueError.
Proof.
  intros Hv. destruct v as [r| | |]; [now destruct (Hv r)| | |]; reflexivity.
Qed.

Lemma add_logpdf_f_total (fa : float_arith) (mean var : list (list float64))
  (GP_index : list nat) (Y_test : list (list float64)) (num p k : nat)
  (sum : list float64) :
  (exists gi o, getitem GP_index k = Ok gi /\ getitem2 Y_test num gi = Ok o) ->
  (exists m v,
     getitem2 mean p k = Ok m /\ getitem2 var p k = Ok (Finite v) /\ 0 < v) ->
  (p < length sum)%nat ->
  exists sum',
    add_logpdf_f fa mean var GP_index Y_test num p k sum = Ok sum'
    /\ length sum' = length sum.
Proof.
  intros (gi & o & Hgi & Ho) (m & v & Hm & Hv & Hpos) Hp.
  unfold add_logpdf_f. rewrite Hgi. cbn [bind]. rewrite Ho. cbn [bind].
  destruct (isnan_f o); [now exists sum|].
  rewrite (getitem_lt sum p (Finite 0) Hp). cbn [bind].
  rewrite Hm. cbn [bind]. rewrite Hv. cbn [bind].
  rewrite scorer_density_f_total by exact Hpos. cbn [bind].
  now apply setitem_lt.
Qed.

Lemma MAP_sum_f_total (fa : float_arith) (grid : list coord)
  (mean var : list (list float64)) (GP_index : list nat) (GP_num : nat)
  (Y_test : list (list float64)) (num : nat) :
  readings_defined_f GP_index GP_num Y_test num ->
  variances_finite_positive grid mean var GP_num ->
  exists sum,
    MAP_sum_f fa grid mean var GP_index GP_num Y_test num = Ok sum
    /\ length sum = length grid.
Proof.
  intros Hr Hv. unfold MAP_sum_f.
  apply (for_each_total (fun sum => length sum = length grid)).
  - intros p sum Hp Hlen. unfold range in Hp. apply in_seq in Hp.
    apply (for_each_total (fun sum => length sum = length grid));
      [|exact Hlen].
    intros k sum0 Hk Hlen0. unfold range in Hk. apply in_seq in Hk.
    destruct (add_logpdf_f_total fa mean var GP_index Y_test num p k sum0)
      as (sum1 & Hrun & Hlen1).
    + apply Hr. lia.
    + apply Hv; lia.
    + lia.
    + exists sum1. split; [exact Hrun|]. congruence.
  - unfold zeros_f. apply repeat_length.
Qed.

Lemma argmax_f_from_lt (t : list float64) (i max_ind : nat) (mp : float64) :
  (max_ind < i)%nat -> (argmax_f_from t i max_ind mp < i + length t)%nat.
Proof.
  revert i max_ind mp. induction t as [|x t IH]; intros i max_ind mp Hlt; simpl.
  - lia.
  - destruct (fle x mp).
    + specialize (IH (S i) max_ind mp). lia.
    + destruct (isnan_f x); [lia|]. specialize (IH (S i) i x). lia.
Qed.

Lemma argmax_f_total (l : list float64) :
  l <> [] -> exists i, argmax_f l = Ok i /\ (i < length l)%nat.
Proof.
  destruct l as [|x t]; [congruence|]. intros _. simpl.
  destruct (isnan_f x).
  - exists 0%nat. split; [reflexivity|lia].
  - exists (argmax_f_from t 1 0 x). split; [reflexivity|].
    pose proof (argmax_f_from_lt t 1 0 x). lia.
Qed.

Lemma MAP_estimate_f_in_grid (fa : float_arith) grid mean var GP_index GP_num
  Y_test num c :
  MAP_estimate_f fa grid mean var GP_index GP_num Y_test num = Ok c -> In c grid.
Proof.
  unfold MAP_estimate_f. intros H. apply bind_Ok in H as (i & _ & Hc).
  apply getitem_Ok in Hc. eapply nth_error_In; eauto.
Qed.

Lemma MAP_estimate_f_total (fa : float_arith) (grid : list coord)
  (mean var : list (list float64)) (GP_index : list nat) (GP_num : nat)
  (Y_test : list (list float64)) (num : nat) :
  (0 < length grid)%nat ->
  readings_defined_f GP_index GP_num Y_test num ->
  variances_finite_positive grid mean var GP_num ->
  exists c, MAP_estimate_f fa grid mean var GP_index GP_num Y_test num = Ok c.
Proof.
  intros Hgrid Hr Hv.
  destruct (MAP_sum_f_total fa grid mean var GP_index GP_num Y_test num Hr Hv)
    as (sum & Hsum & Hlen).
  destruct (argmax_f_total sum) as (i & Hi & Hlt).
  { destruct sum; [simpl in Hlen; lia|discriminate]. }
  exists (nth i grid (0, 0)).
  unfold MAP_estimate_f, MAP_index_f. rewrite Hsum. cbn [bind].
  rewrite Hi. cbn [bind]. apply getitem_lt. lia.
Qed.

Lemma scorer_loop_value (est : nat -> result coord) (estimate : nat -> coord)
  (num_test : nat) :
  (forall num, (num < num_test)%nat -> est num = Ok (estimate num)) ->
  for_each (range num_test)
    (fun num Y_hat => c <- est num ;; setitem Y_hat num c)
    (repeat (0, 0) num_test)
  = Ok (map estimate (range num_test)).
Proof.
  intros Hest.
  assert (Hloop : forall n, (n <= num_test)%nat ->
    for_each (range n)
      (fun num Y_hat => c <- est num ;; setitem Y_hat num c)
      (repeat (0, 0) num_test)
    = Ok (map estimate (range n) ++ repeat (0, 0) (num_test - n))).
  { induction n as [|n IH]; intros Hn.
    - simpl. now rewrite Nat.sub_0_r.
    - rewrite range_S, for_each_app, IH by lia. simpl.
      rewrite Hest by lia. simpl.
      replace (num_test - n)%nat with (S (num_test - S n)) by lia.
      rewrite setitem_repeat_step, range_S. reflexivity. }
  rewrite Hloop by lia. rewrite Nat.sub_diag. simpl. now rewrite app_nil_r.
Qed.

(** C7, as the code has it: on float64 arrays that fit together (every
    reading and every prediction the loops index exists), with a grid of at
    least one point and predicted variances that are finite and strictly
    positive, the scorer raises no exception and returns one grid point per
    test sample.  This holds whatever the floating-point addition and the
    density computation return ([fa] is arbitrary: finite values, infinities
    after an overflow, NaN), and whatever the means and the readings are. *)
Theorem float_scorer_completes_on_finite_positive_variances
  (fa : float_arith) (grid : list coord) (mean var : list (list float64))
  (GP_index : list nat) (GP_num : nat) (Y_test : list (list float64))
  (num_test : nat) :
  (0 < length grid)%nat ->
  variances_finite_positive grid mean var GP_num ->
  (forall num, (num < num_test)%nat ->
     readings_defined_f GP_index GP_num Y_test num) ->
  exists Y_hat,
    MAP_scorer_f fa grid mean var GP_index GP_num Y_test num_test = Ok Y_hat
    /\ length Y_hat = num_test
    /\ forall num, (num < num_test)%nat ->
         MAP_estimate_f fa grid mean var GP_index GP_num Y_test num
         = Ok (nth num Y_hat (0, 0))
         /\ In (nth num Y_hat (0, 0)) grid.
Proof.
  intros Hgrid Hv Hr.
  set (estimate := fun num =>
         match MAP_estimate_f fa grid mean var GP_index GP_num Y_test num with
         | Ok c => c
         | Raise _ => (0, 0)
         end).
  assert (Hest : forall num, (num < num_test)%nat ->
            MAP_estimate_f fa grid mean var GP_index GP_num Y_test num
            = Ok (estimate num)).
  { intros num Hnum.
    destruct (MAP_estimate_f_total fa grid mean var GP_index GP_num Y_test num
                Hgrid (Hr num Hnum) Hv) as (c & Hc).
    unfold estimate. now rewrite Hc. }
  assert (Hnth : forall num, (num < num_test)%nat ->
            nth num (map estimate (range num_test)) (0, 0) = estimate num).
  { intros num Hnum. unfold range.
    rewrite (nth_indep _ (0, 0) (estimate 0%nat))
      by now rewrite length_map, length_seq.
    now rewrite map_nth, seq_nth. }
  exists (map estimate (range num_test)). split; [|split].
  - unfold MAP_scorer_f. now apply scorer_loop_value.
  - unfold range. now rewrite length_map, length_seq.
  - intros num Hnum. rewrite Hnth by exact Hnum. split; [now apply Hest|].
    eapply MAP_estimate_f_in_grid. now apply Hest.
Qed.

Lemma float_scorer_completes_on_finite_positive_variances_witness :
  exists Y_hat,
    MAP_scorer_f exact_arith [(0, 0); (1, 0)]
      [[Finite (-60)]; [PosInf]] [[Finite 4]; [Finite 1]] [0%nat] 1
      [[Finite (-50)]; [NotANumber]] 2
    = Ok Y_hat
    /\ length Y_hat = 2%nat.
Proof.
  destruct (float_scorer_completes_on_finite_positive_variances exact_arith
              [(0, 0); (1, 0)] [[Finite (-60)]; [PosInf]]
              [[Finite 4]; [Finite 1]] [0%nat] 1
              [[Finite (-50)]; [NotANumber]] 2) as (Y_hat & H & Hlen & _).
  - simpl. lia.
  - intros p k Hp Hk. simpl in Hp.
    destruct p as [|[|p]]; [| |lia]; (destruct k; [|lia]);
      eexists; eexists; (split; [reflexivity|]); (split; [reflexivity|]); lra.
  - intros num Hnum k Hk. destruct k; [|lia].
    destruct num as [|[|num]]; [| |lia]; eexists; eexists; split; reflexivity.
  - now exists Y_hat.
Defined.

(** C7, as stated, fails: a predicted variance that has overflowed to
    infinity, or that is NaN after an invalid operation, reaches SciPy as the
    covariance and makes it raise [ValueError], and the scorer with it. *)
Lemma float_scorer_raises_on_overflowed_variance :
  MAP_estimate_f exact_arith [(0, 0)] [[Finite (-50)]] [[PosInf]] [0%nat] 1
    [[Finite (-50)]] 0
  = Raise ValueError
  /\ MAP_scorer_f exact_arith [(0, 0)] [[Finite (-50)]] [[PosInf]] [0%nat] 1
       [[Finite (-50)]] 1
     = Raise ValueError
  /\ MAP_scorer_f exact_arith [(0, 0)] [[Finite (-50)]] [[NotANumber]] [0%nat] 1
       [[Finite (-50)]] 1
     = Raise ValueError.
Proof.
  repeat split; reflexivity.
Qed.

(** The only values of the prediction arrays that matter to whether the
    scorer returns are the variances it uses: with one grid point and one
    fitted access point whose reading is not NaN, it returns exactly when the
    variance is finite and strictly positive, for every floating-point
    arithmetic. *)
Lemma float_scorer_single_reading (fa : float_arith) (g : coord)
  (RSS m v : float64) :
  isnan_f RSS = false ->
  (exists c, MAP_estimate_f fa [g] [[m]] [[v]] [0%nat] 1 [[RSS]] 0 = Ok c)
  <-> exists r, v = Finite r /\ 0 < r.
Proof.
  intros HRSS. split.
  - intros (c & Hc).
    unfold MAP_estimate_f, MAP_index_f, MAP_sum_f in Hc.
    cbn [length range seq for_each zeros_f repeat] in Hc.
    unfold add_logpdf_f at 1 in Hc. unfold getitem2, getitem in Hc.
    cbn [nth_error bind] in Hc. rewrite HRSS in Hc.
    destruct v as [r| | |]; try discriminate.
    exists r. split; [reflexivity|].
    unfold scorer_density_f, math_sqrt_f in Hc.
    destruct (Rlt_dec r 0) as [Hneg|Hnn]; [discriminate|]. cbn [bind] in Hc.
    unfold multivariate_normal_logpdf_f in Hc.
    destruct (Rlt_dec (sqrt r) 0); [discriminate|].
    destruct (Rle_dec (sqrt r) 0) as [Hle|Hgt]; [discriminate|].
    destruct (Rle_lt_or_eq_dec 0 r) as [Hpos|Hz]; [lra|exact Hpos|].
    subst r. rewrite sqrt_0 in Hgt. lra.
  - intros (r & -> & Hr).
    apply MAP_estimate_f_total.
    + simpl. lia.
    + intros k Hk. destruct k; [|lia]. exists 0%nat, RSS. split; reflexivity.
    + intros p k Hp Hk. simpl in Hp. destruct p; [|lia]. destruct k; [|lia].
      exists m, r. repeat split; auto.
Qed.

(** ** The two models of the scorer agree on finite values *)

Lemma getitem_map {A B : Type} (f : A -> B) (l : list A) (i : nat) :
  getitem (map f l) i = (a <- getitem l i ;; Ok (f a)).
Proof.
  unfold getitem. rewrite nth_error_map. now destruct (nth_error l i).
Qed.

Lemma getitem2_map {A B : Type} (f : A -> B) (a : list (list A)) (i j : nat) :
  getitem2 (map (map f) a) i j = (x <- getitem2 a i j ;; Ok (f x)).
Proof.
  unfold getitem2. rewrite getitem_map.
  destruct (getitem a i) as [row|e]; cbn [bind]; [|reflexivity].
  apply getitem_map.
Qed.

Lemma setitem_map {A B : Type} (f : A -> B) (l : list A) (i : nat) (a : A) :
  setitem (map f l) i (f a) = (l' <- setitem l i a ;; Ok (map f l')).
Proof.
  revert i. induction l as [|h l IH]; intros i; simpl; [reflexivity|].
  destruct i as [|i]; [reflexivity|].
  rewrite IH. now destruct (setitem l i a).
Qed.

Lemma for_each_map {I S S' : Type} (rel : S -> S') (l : list I)
  (body : I -> S -> result S) (body' : I -> S' -> result S') (s : S) :
  (forall i s0, body' i (rel s0) = (s1 <- body i s0 ;; Ok (rel s1))) ->
  for_each l body' (rel s) = (s' <- for_each l body s ;; Ok (rel s')).
Proof.
  intros Hbody. revert s. induction l as [|i l IH]; intros s; simpl; [reflexivity|].
  rewrite Hbody. destruct (body i s) as [s1|e]; cbn [bind]; [apply IH|reflexivity].
Qed.

Lemma scorer_density_f_finite (RSS m v : R) :
  scorer_density_f exact_arith (Finite RSS) (Finite m) (Finite v)
  = (l <- scorer_density RSS m v ;; Ok (Finite l)).
Proof.
  unfold scorer_density_f, scorer_density, math_sqrt_f, math_sqrt.
  destruct (Rlt_dec v 0); [reflexivity|]. cbn [bind].
  unfold multivariate_normal_logpdf_f, multivariate_normal_logpdf.
  destruct (Rlt_dec (sqrt v) 0); [reflexivity|].
  destruct (Rle_dec (sqrt v) 0); reflexivity.
Qed.

Lemma add_logpdf_f_finite (mean var : list (list R)) (GP_index : list nat)
  (Y_test : list (list npfloat)) (num p k : nat) (sum : list R) :
  add_logpdf_f exact_arith (map (map Finite) mean) (map (map Finite) var)
    GP_index (map (map to_float64) Y_test) num p k (map Finite sum)
  = (sum' <- add_logpdf mean var GP_index Y_test num p k sum ;;
     Ok (map Finite sum')).
Proof.
  unfold add_logpdf_f, add_logpdf.
  destruct (getitem GP_index k) as [gi|e]; cbn [bind]; [|reflexivity].
  rewrite getitem2_map.
  destruct (getitem2 Y_test num gi) as [[|rss]|e]; cbn [bind to_float64 isnan_f];
    [reflexivity| |reflexivity].
  rewrite getitem_map.
  destruct (getitem sum p) as [cur|e]; cbn [bind]; [|reflexivity].
  rewrite getitem2_map.
  destruct (getitem2 mean p k) as [m|e]; cbn [bind]; [|reflexivity].
  rewrite getitem2_map.
  destruct (getitem2 var p k) as [v|e]; cbn [bind]; [|reflexivity].
  rewrite scorer_density_f_finite.
  destruct (scorer_density rss m v) as [l|e]; cbn [bind]; [|reflexivity].
  change (fadd exact_arith (Finite cur) (Finite l)) with (Finite (cur + l)).
  apply setitem_map.
Qed.

Lemma argmax_f_from_finite (t : list R) (i max_ind : nat) (x : R) :
  argmax_f_from (map Finite t) i max_ind (Finite x) = argmax_from t i max_ind x.
Proof.
  revert i max_ind x.
  induction t as [|y t IH]; intros i max_ind x; simpl; [reflexivity|].
  destruct (Rle_dec y x) as [Hle|Hgt], (Rlt_dec x y) as [Hlt|Hge];
    try lra; simpl; apply IH.
Qed.

Lemma argmax_f_finite (l : list R) : argmax_f (map Finite l) = argmax l.
Proof.
  destruct l as [|x t]; [reflexivity|]. simpl. f_equal.
  apply argmax_f_from_finite.
Qed.

Lemma MAP_estimate_f_finite (grid : list coord) (mean var : list (list R))
  (GP_index : list nat) (GP_num : nat) (Y_test : list (list npfloat)) (num : nat) :
  MAP_estimate_f exact_arith grid (map (map Finite) mean) (map (map Finite) var)
    GP_index GP_num (map (map to_float64) Y_test) num
  = MAP_estimate grid mean var GP_index GP_num Y_test num.
Proof.
  unfold MAP_estimate_f, MAP_estimate, MAP_index_f, MAP_index.
  assert (Hsum :
    MAP_sum_f exact_arith grid (map (map Finite) mean) (map (map Finite) var)
      GP_index GP_num (map (map to_float64) Y_test) num
    = (sum <- MAP_sum grid mean var GP_index GP_num Y_test num ;;
       Ok (map Finite sum))).
  { unfold MAP_sum_f, MAP_sum, zeros_f, zeros.
    rewrite <- (map_repeat 0 (length grid) Finite).
    apply for_each_map. intros p sum.
    apply for_each_map. intros k sum0. apply add_logpdf_f_finite. }
  rewrite Hsum.
  destruct (MAP_sum grid mean var GP_index GP_num Y_test num) as [sum|e];
    cbn [bind]; [|reflexivity].
  now rewrite argmax_f_finite.
Qed.

(** On finite predictions and with exact arithmetic the scorer on float64
    arrays is the scorer of the first model: the same locations, the same
    exceptions. *)
Lemma MAP_scorer_f_finite (grid : list coord) (mean var : list (list R))
  (GP_index : list nat) (GP_num : nat) (Y_test : list (list npfloat))
  (num_test : nat) :
  MAP_scorer_f exact_arith grid (map (map Finite) mean) (map (map Finite) var)
    GP_index GP_num (map (map to_float64) Y_test) num_test
  = MAP_scorer grid mean var GP_index GP_num Y_test num_test.
Proof.
  unfold MAP_scorer_f, MAP_scorer. apply for_each_ext.
  intros num Y_hat _. now rewrite MAP_estimate_f_finite.
Qed.

(** ** The density as a function of the variance *)

Lemma ln_lower_bound (y : R) : 0 < y -> 1 - / y <= ln y.
Proof.
  intros Hy.
  assert (Hinv : 0 < / y) by now apply Rinv_0_lt_compat.
  pose proof (exp_ineq1_le (ln (/ y))) as H.
  rewrite exp_ln in H by assumption.
  rewrite ln_Rinv in H by assumption. lra.
Qed.

Lemma logpdf_var_decreasing (x m c1 c2 : R) :
  0 < c1 -> c1 < c2 -> (x - m) * (x - m) <= c1 ->
  normal_logpdf_var x m c2 <= normal_logpdf_var x m c1.
Proof.
  intros H1 H12 Hd. unfold normal_logpdf_var.
  set (d2 := (x - m) * (x - m)) in *.
  assert (Hd0 : 0 <= d2) by apply Rle_0_sqr.
  assert (H2 : 0 < c2) by lra.
  assert (Hln : 1 - c1 / c2 <= ln c2 - ln c1).
  { replace (ln c2 - ln c1) with (ln (c2 / c1))
      by (unfold Rdiv; rewrite ln_mult, ln_Rinv;
          [lra | | | apply Rinv_0_lt_compat]; assumption).
    pose proof (ln_lower_bound (c2 / c1)) as H.
    replace (/ (c2 / c1)) with (c1 / c2) in H by (field; lra).
    apply H. apply Rdiv_lt_0_compat; lra. }
  assert (Hfrac : d2 / c1 - d2 / c2 <= 1 - c1 / c2).
  { replace (d2 / c1 - d2 / c2) with (d2 * ((c2 - c1) / (c1 * c2))) by (field; lra).
    replace (1 - c1 / c2) with (c1 * ((c2 - c1) / (c1 * c2))) by (field; lra).
    apply Rmult_le_compat_r; [|exact Hd].
    left. apply Rdiv_lt_0_compat; [lra|]. now apply Rmult_lt_0_compat. }
  lra.
Qed.

Lemma ln_2_lt_2 : ln 2 < 2.
Proof.
  apply Rlt_le_trans with (ln (exp 2)); [|rewrite ln_exp; lra].
  apply ln_increasing; [lra|].
  pose proof (exp_ineq1_le 2). lra.
Qed.

Lemma ln_4_bounds : 1 < ln 4 < 2.
Proof.
  split.
  - apply Rle_lt_trans with (ln (exp 1)); [rewrite ln_exp; lra|].
    apply ln_increasing; [apply exp_pos|].
    pose proof exp_le_3. lra.
  - apply Rlt_le_trans with (ln (exp (1 + 1)));
      [|rewrite ln_exp; lra].
    apply ln_increasing; [lra|]. rewrite exp_plus.
    pose proof (exp_ineq1_le 1). assert (2 <= exp 1) by lra.
    assert (4 <= exp 1 * exp 1) by nra.
    assert (exp 1 <> 2).
    { pose proof (exp_ineq1 1). lra. }
    nra.
Qed.

Lemma sqrt_sixteenth : sqrt (1 / 16) = 1 / 4.
Proof.
  replace (1 / 16) with ((1 / 4) * (1 / 4)) by lra. apply sqrt_square. lra.
Qed.

Lemma sqrt_four : sqrt 4 = 2.
Proof.
  replace 4 with (2 * 2) by lra. apply sqrt_square. lra.
Qed.

Lemma ln_quarter : ln (1 / 4) = - ln 4.
Proof.
  replace (1 / 4) with (/ 4) by lra. apply ln_Rinv. lra.
Qed.

Lemma scorer_logpdf_decreasing (obs m v1 v2 : R) :
  0 < v1 -> v1 < v2 ->
  ((obs - m) * (obs - m)) * ((obs - m) * (obs - m)) <= v1 ->
  scorer_logpdf obs m v2 <= scorer_logpdf obs m v1.
Proof.
  intros H1 H12 Hd. unfold scorer_logpdf.
  apply logpdf_var_decreasing.
  - now apply sqrt_lt_R0.
  - apply sqrt_lt_1; lra.
  - rewrite <- (sqrt_square ((obs - m) * (obs - m))) by apply Rle_0_sqr.
    apply sqrt_le_1; try lra.
    apply Rmult_le_pos; apply Rle_0_sqr.
Qed.

Lemma normal_logpdf_sd_sqrt (x m v : R) :
  0 < v -> normal_logpdf_sd x m (sqrt v) = normal_logpdf_var x m v.
Proof.
  intros Hv. unfold normal_logpdf_sd, normal_logpdf_var.
  assert (Hs : 0 < sqrt v) by now apply sqrt_lt_R0.
  assert (Hln : ln v = ln (sqrt v) + ln (sqrt v)).
  { rewrite <- ln_mult by assumption. now rewrite sqrt_sqrt by lra. }
  rewrite sqrt_sqrt by lra. rewrite Hln. field. lra.
Qed.

(** C4, as the code has it: for a fixed reading and mean, the log-density the
    scorer adds does not increase when the predicted variance grows from [v1]
    to [v2], provided [v1] is positive and at least [(obs - m)^2] and
    [(obs - m)^4].  The second bound is what the scorer's density needs (the
    square root of the variance serves as variance); the first is what the
    density with standard deviation [sqrt v] needs, for which the same
    holds. *)
Theorem logpdf_decreases_beyond_threshold (obs m v1 v2 : R) :
  0 < v1 -> v1 < v2 ->
  (obs - m) * (obs - m) <= v1 ->
  ((obs - m) * (obs - m)) * ((obs - m) * (obs - m)) <= v1 ->
  (exists d1 d2,
     scorer_density obs m v1 = Ok d1
     /\ scorer_density obs m v2 = Ok d2
     /\ d2 <= d1)
  /\ normal_logpdf_sd obs m (sqrt v2) <= normal_logpdf_sd obs m (sqrt v1).
Proof.
  intros H1 H12 Hd2 Hd4. split.
  - exists (scorer_logpdf obs m v1), (scorer_logpdf obs m v2).
    split; [now apply scorer_density_pos|].
    split; [apply scorer_density_pos; lra|].
    now apply scorer_logpdf_decreasing.
  - rewrite !normal_logpdf_sd_sqrt by lra.
    now apply logpdf_var_decreasing.
Qed.

Lemma logpdf_decreases_beyond_threshold_witness :
  exists d1 d2,
    scorer_density 3 2 4 = Ok d1
    /\ scorer_density 3 2 9 = Ok d2
    /\ d2 <= d1.
Proof.
  apply (logpdf_decreases_beyond_threshold 3 2 4 9); lra.
Defined.

(** C4, as stated, fails: with [obs - m = 2], raising the variance from 1 to 4
    raises the log-density the scorer adds. *)
Lemma logpdf_increases_for_small_variance :
  exists d1 d2,
    scorer_density 2 0 1 = Ok d1
    /\ scorer_density 2 0 4 = Ok d2
    /\ d1 < d2.
Proof.
  exists (scorer_logpdf 2 0 1), (scorer_logpdf 2 0 4).
  split; [apply scorer_density_pos; lra|].
  split; [apply scorer_density_pos; lra|].
  unfold scorer_logpdf, normal_logpdf_var.
  rewrite sqrt_1, sqrt_four, ln_1.
  pose proof ln_2_lt_2. lra.
Qed.

(** ** The scorer against the density of the spec *)



(** For a positive predicted variance [v] the log-density the scorer adds is
    that of the normal distribution with standard deviation [sqrt (sqrt v)],
    not [sqrt v]. *)
Lemma scorer_logpdf_fourth_root (x m v : R) :
  0 < v -> scorer_logpdf x m v = normal_logpdf_sd x m (sqrt (sqrt v)).
Proof.
  intros Hv. unfold scorer_logpdf.
  symmetry. apply normal_logpdf_sd_sqrt. now apply sqrt_lt_R0.
Qed.

(** C1 at a concrete input: two grid points, one fitted access point, a
    reading of -50; predicted mean -50 and variance 1 at the first grid point,
    mean -50.5 and variance 1/16 at the second.  The scorer returns the second
    grid point, while the summed log-density of the normal distribution with
    the predicted mean and standard deviation [sqrt var] is maximal at the
    first: SciPy takes the square root as the variance of the distribution. *)
Theorem scorer_differs_from_standard_deviation_density :
  first_argmax (score_sd [[-50]; [-101 / 2]] [[1]; [1 / 16]] [0%nat] 1 [[Num (-50)]] 0)
    2 0
  /\ MAP_index [(0, 0); (1, 0)] [[-50]; [-101 / 2]] [[1]; [1 / 16]] [0%nat] 1
       [[Num (-50)]] 0 = Ok 1%nat
  /\ MAP_estimate [(0, 0); (1, 0)] [[-50]; [-101 / 2]] [[1]; [1 / 16]] [0%nat] 1
       [[Num (-50)]] 0 = Ok (1, 0).
Proof.
  pose proof ln_4_bounds as [Hlo Hhi].
  assert (Hsd0 : score_sd [[-50]; [-101 / 2]] [[1]; [1 / 16]] [0%nat] 1 [[Num (-50)]] 0 0
                 = - (1 / 2) * ln (2 * PI)).
  { unfold score_sd, contribution_sd, observed, normal_logpdf_sd. simpl.
    rewrite sqrt_1, ln_1. field. }
  assert (Hsd1 : score_sd [[-50]; [-101 / 2]] [[1]; [1 / 16]] [0%nat] 1 [[Num (-50)]] 0 1
                 = ln 4 - (1 / 2) * ln (2 * PI) - 2).
  { unfold score_sd, contribution_sd, observed, normal_logpdf_sd. simpl.
    rewrite sqrt_sixteenth, ln_quarter. field. }
  assert (Hc0 : score [[-50]; [-101 / 2]] [[1]; [1 / 16]] [0%nat] 1 [[Num (-50)]] 0 0
                = - (1 / 2) * ln (2 * PI)).
  { unfold score, contribution, observed, scorer_logpdf, normal_logpdf_var. simpl.
    rewrite sqrt_1, ln_1. field. }
  assert (Hc1 : score [[-50]; [-101 / 2]] [[1]; [1 / 16]] [0%nat] 1 [[Num (-50)]] 0 1
                = - (1 / 2) * (ln (2 * PI) - ln 4 + 1)).
  { unfold score, contribution, observed, scorer_logpdf, normal_logpdf_var. simpl.
    rewrite sqrt_sixteenth, ln_quarter. field. }
  split.
  - repeat split; [lia| |intros j Hj; lia].
    intros j Hj. destruct j as [|[|j]]; [| |lia]; rewrite ?Hsd0, ?Hsd1; lra.
  - destruct (MAP_estimate_spec [(0, 0); (1, 0)] [[-50]; [-101 / 2]] [[1]; [1 / 16]]
                [0%nat] 1 [[Num (-50)]] 0) as (i & Hi & Hest & Hmax).
    + intros k Hk. destruct k; [|lia]. eexists; eexists; split; reflexivity.
    + intros p k Hp Hk _. simpl in Hp.
      destruct p as [|[|p]]; [| |lia]; (destruct k; [|lia]);
        eexists; eexists; (split; [reflexivity|split; [reflexivity|lra]]).
    + simpl. lia.
    + assert (i = 1%nat) as ->; [|auto].
      apply (first_argmax_unique _ _ _ _ Hmax).
      repeat split; [simpl; lia| |].
      * intros j Hj. simpl in Hj.
        destruct j as [|[|j]]; [| |lia]; rewrite ?Hc0, ?Hc1; lra.
      * intros j Hj. destruct j; [|lia]. rewrite Hc0, Hc1. lra.
Qed.

(** ** The k-fold partition *)

Lemma iter_test_indices_concat (sizes : list nat) (current : nat) :
  concat (iter_test_indices sizes current) = seq current (list_sum sizes).
Proof.
  revert current. induction sizes as [|s sizes IH]; intros current; simpl.
  - reflexivity.
  - rewrite IH. symmetry. apply seq_app.
Qed.

Lemma iter_test_indices_length (sizes : list nat) (current : nat) :
  length (iter_test_indices sizes current) = length sizes.
Proof.
  revert current. induction sizes as [|s sizes IH]; intros current; simpl; auto.
Qed.

Lemma iter_test_indices_nth (sizes : list nat) (current j : nat) :
  (j < length sizes)%nat ->
  nth j (iter_test_indices sizes current) []
  = seq (current + list_sum (firstn j sizes)) (nth j sizes 0%nat).
Proof.
  revert current j. induction sizes as [|s sizes IH]; intros current j Hj; simpl in Hj.
  - lia.
  - destruct j as [|j]; simpl.
    + now rewrite Nat.add_0_r.
    + rewrite IH by lia. f_equal. lia.
Qed.

Lemma NoDup_app_disjoint {A : Type} (l1 l2 : list A) (a : A) :
  NoDup (l1 ++ l2) -> In a l1 -> ~ In a l2.
Proof.
  induction l1 as [|b l1 IH]; simpl; intros Hnd Hin Hin2; [contradiction|].
  inversion Hnd as [|? ? Hnotin Hnd']; subst.
  destruct Hin as [->|Hin].
  - apply Hnotin. apply in_or_app. now right.
  - now apply IH.
Qed.

Lemma concat_nth_disjoint (ls : list (list nat)) (i j x : nat) :
  NoDup (concat ls) -> (i < j)%nat -> (j < length ls)%nat ->
  In x (nth i ls []) -> ~ In x (nth j ls []).
Proof.
  revert i j. induction ls as [|l ls IH]; intros i j Hnd Hij Hj Hi Hin; simpl in *.
  - lia.
  - apply NoDup_app_remove_l in Hnd as Hnd'.
    destruct j as [|j]; [lia|]. destruct i as [|i].
    + apply (NoDup_app_disjoint _ _ x Hnd Hi).
      apply in_concat. exists (nth j ls []). split; auto.
      apply nth_In. lia.
    + apply (IH i j); auto; lia.
Qed.

Lemma fold_sizes_sum (n q r k : nat) :
  list_sum (map (fun j => (q + (if Nat.ltb j r then 1 else 0))%nat) (seq 0 k))
  = (k * q + Nat.min r k)%nat.
Proof.
  induction k as [|k IH]; [simpl; lia|].
  rewrite seq_S, map_app, list_sum_app, IH. simpl.
  destruct (Nat.ltb_spec k r); lia.
Qed.

Lemma fold_sizes_total (n k : nat) :
  (0 < k)%nat -> list_sum (fold_sizes n k) = n.
Proof.
  intros Hk. unfold fold_sizes, range. rewrite (fold_sizes_sum n).
  pose proof (Nat.mod_upper_bound n k). pose proof (Nat.div_mod_eq n k). lia.
Qed.

Lemma fold_sizes_nth (n k j : nat) :
  (j < k)%nat ->
  nth j (fold_sizes n k) 0%nat
  = (n / k + (if Nat.ltb j (n mod k) then 1 else 0))%nat.
Proof.
  intros Hj. unfold fold_sizes, range.
  set (f := fun j => (n / k + (if Nat.ltb j (n mod k) then 1 else 0))%nat).
  rewrite (nth_indep _ 0%nat (f 0%nat)) by now rewrite length_map, length_seq.
  rewrite map_nth, seq_nth by assumption. reflexivity.
Qed.

Lemma isin_In (i : nat) (l : list nat) : isin i l = true <-> In i l.
Proof.
  unfold isin. rewrite existsb_exists. split.
  - intros (x & Hx & Heq). apply Nat.eqb_eq in Heq. now subst.
  - intros H. exists i. split; auto. apply Nat.eqb_refl.
Qed.

Lemma KFold_split_spec (k n : nat) :
  (0 < k)%nat -> (k <= n)%nat ->
  exists folds,
    KFold_split k n = Ok folds
    /\ length folds = k
    /\ concat (map snd folds) = range n
    /\ (forall j, (j < k)%nat ->
          length (snd (nth j folds ([], [])))
          = (n / k + (if Nat.ltb j (n mod k) then 1 else 0))%nat)
    /\ (forall i j x, (i < k)%nat -> (j < k)%nat -> i <> j ->
          In x (snd (nth i folds ([], []))) -> ~ In x (snd (nth j folds ([], []))))
    /\ (forall j x, (j < k)%nat ->
          (In x (fst (nth j folds ([], [])))
           <-> (x < n)%nat /\ ~ In x (snd (nth j folds ([], []))))).
Proof.
  intros Hk Hkn. unfold KFold_split.
  destruct (Nat.ltb_spec n k) as [Hlt|_]; [lia|].
  set (tests := iter_test_indices (fold_sizes n k) 0).
  set (mk := fun test_index : list nat =>
               (filter (fun i => negb (isin i test_index)) (range n), test_index)).
  exists (map mk tests).
  assert (Hlen : length tests = k).
  { unfold tests. rewrite iter_test_indices_length. unfold fold_sizes, range.
    now rewrite length_map, length_seq. }
  assert (Hsnd : map snd (map mk tests) = tests).
  { rewrite map_map. simpl. apply map_id. }
  assert (Hcat : concat tests = range n).
  { unfold tests. rewrite iter_test_indices_concat, fold_sizes_total by lia.
    reflexivity. }
  assert (Hnth : forall j, (j < k)%nat ->
            nth j (map mk tests) ([], []) = mk (nth j tests [])).
  { intros j Hj. rewrite (nth_indep _ ([], []) (mk [])) by (rewrite length_map; lia).
    apply map_nth. }
  split; [reflexivity|]. split; [now rewrite length_map|].
  split; [now rewrite Hsnd|]. split; [|split].
  - intros j Hj. rewrite Hnth by lia. simpl. unfold tests.
    rewrite iter_test_indices_nth, length_seq.
    + now apply fold_sizes_nth.
    + unfold fold_sizes, range. now rewrite length_map, length_seq.
  - intros i j x Hi Hj Hne. rewrite !Hnth by lia. simpl. intros Hin Hin'.
    assert (Hnd : NoDup (concat tests)) by (rewrite Hcat; apply seq_NoDup).
    destruct (Nat.lt_trichotomy i j) as [H|[H|H]]; [|lia|].
    + apply (concat_nth_disjoint tests i j x); auto; lia.
    + apply (concat_nth_disjoint tests j i x); auto; lia.
  - intros j x Hj. rewrite Hnth by lia. simpl.
    rewrite filter_In, negb_true_iff, <- not_true_iff_false, isin_In.
    unfold range. rewrite in_seq. intuition lia.
Qed.

(** C8: for every sample count [n >= 10], [KFold(n_splits=10)] gives exactly
    ten test folds that are pairwise disjoint and whose concatenation is the
    list of all indices; fold [j] has [n / 10] indices, one more for the first
    [n mod 10] folds, so every fold has [n / 10] or [n / 10 + 1] indices and
    the sizes add up to [n]; the training indices of a fold are the others. *)
Theorem kfold_partitions_into_ten_folds (n : nat) :
  (10 <= n)%nat ->
  exists folds,
    KFold_split 10 n = Ok folds
    /\ length folds = 10%nat
    /\ concat (map snd folds) = range n
    /\ (forall j, (j < 10)%nat ->
          length (snd (nth j folds ([], [])))
          = (n / 10 + (if Nat.ltb j (n mod 10) then 1 else 0))%nat
          /\ (n / 10 <= length (snd (nth j folds ([], []))) <= n / 10 + 1)%nat)
    /\ list_sum (map (fun fold => length (snd fold)) folds) = n
    /\ (forall i j x, (i < 10)%nat -> (j < 10)%nat -> i <> j ->
          In x (snd (nth i folds ([], []))) -> ~ In x (snd (nth j folds ([], []))))
    /\ (forall j x, (j < 10)%nat ->
          (In x (fst (nth j folds ([], [])))
           <-> (x < n)%nat /\ ~ In x (snd (nth j folds ([], []))))).
Proof.
  intros Hn.
  destruct (KFold_split_spec 10 n) as (folds & Hrun & Hlen & Hcat & Hsize & Hdis & Htrain);
    [lia|lia|].
  exists folds. split; [exact Hrun|]. split; [exact Hlen|]. split; [exact Hcat|].
  split; [|split; [|split; [exact Hdis|exact Htrain]]].
  - intros j Hj. split; [now apply Hsize|].
    rewrite (Hsize j) by assumption. destruct (Nat.ltb j (n mod 10)); lia.
  - rewrite <- (map_map snd (@length nat)), <- length_concat, Hcat.
    unfold range. apply length_seq.
Qed.

Lemma kfold_partitions_into_ten_folds_witness :
  exists folds,
    KFold_split 10 23 = Ok folds
    /\ length folds = 10%nat
    /\ concat (map snd folds) = range 23.
Proof.
  destruct (kfold_partitions_into_ten_folds 23) as (folds & H1 & H2 & H3 & _).
  - lia.
  - exists folds. auto.
Defined.

Example KFold_split_23 :
  option_map (map snd)
    (match KFold_split 10 23 with Ok f => Some f | Raise _ => None end)
  = Some [[0; 1; 2]; [3; 4; 5]; [6; 7; 8]; [9; 10]; [11; 12]; [13; 14];
          [15; 16]; [17; 18]; [19; 20]; [21; 22]]%nat.
Proof. reflexivity. Qed.

(** ** Averaging the scans *)

Lemma nanmean_count (a : list npfloat) :
  count_true (map negb (map isnan a)) = length (present a).
Proof.
  unfold count_true, present, dropna.
  induction a as [|v a IH]; simpl; [reflexivity|].
  destruct v; simpl; rewrite IH; reflexivity.
Qed.

Lemma nanmean_total (a : list npfloat) :
  Np.sum (fst (replace_nan a 0)) = Np.sum (present a).
Proof.
  unfold present, dropna. induction a as [|v a IH]; simpl; [reflexivity|].
  simpl in IH. destruct v; simpl; rewrite IH; lra.
Qed.

Lemma nanmean_spec (a : list npfloat) :
  nanmean a
  = match present a with
    | [] => NaN
    | _ :: _ => Num (arithmetic_mean (present a))
    end.
Proof.
  unfold nanmean.
  change (divide_by_count (Np.sum (fst (replace_nan a 0)))
            (count_true (map negb (map isnan a)))
          = match present a with
            | [] => NaN
            | _ :: _ => Num (arithmetic_mean (present a))
            end).
  rewrite nanmean_count, nanmean_total. unfold arithmetic_mean.
  destruct (present a); reflexivity.
Qed.

Lemma present_nil (a : list npfloat) :
  present a = [] <-> (forall v, In v a -> v = NaN).
Proof.
  unfold present, dropna. induction a as [|v a IH]; simpl.
  - split; [intros _ w []|reflexivity].
  - destruct v; simpl.
    + rewrite IH. split.
      * intros H w [<-|Hw]; auto.
      * intros H w Hw. apply H. now right.
    + split; [discriminate|]. intros H.
      specialize (H (Num r) (or_introl eq_refl)). discriminate.
Qed.

Lemma compute_X_mean_loop (num_AP : nat) (l pre : list (list (list npfloat)))
  (acc : list (list npfloat)) :
  (forall scans, In scans l -> length scans = num_AP) ->
  for_each (seq (length pre) (length l))
    (fun i X_mean =>
       scans <- getitem (pre ++ l) i ;;
       col <- broadcast_to num_AP (nanmean_axis1 scans) ;;
       Ok (X_mean ++ [col]))
    acc
  = Ok (acc ++ map nanmean_axis1 l).
Proof.
  revert pre acc. induction l as [|scans l IH]; intros pre acc Hshape; simpl.
  - now rewrite app_nil_r.
  - rewrite getitem_middle. simpl. unfold broadcast_to at 1.
    unfold nanmean_axis1 at 1. rewrite length_map.
    rewrite (Hshape scans) by now left. rewrite Nat.eqb_refl. simpl.
    specialize (IH (pre ++ [scans]) (acc ++ [nanmean_axis1 scans])).
    rewrite length_app, <- app_assoc in IH. simpl in IH.
    rewrite Nat.add_1_r in IH. rewrite IH.
    + now rewrite <- app_assoc.
    + intros s Hs. apply Hshape. now right.
Qed.

Lemma compute_X_mean_value (X_raw : list (list (list npfloat))) (num_AP : nat) :
  (forall scans, In scans X_raw -> length scans = num_AP) ->
  compute_X_mean X_raw num_AP (length X_raw) = Ok (map nanmean_axis1 X_raw).
Proof.
  intros Hshape. unfold compute_X_mean, range.
  apply (compute_X_mean_loop num_AP X_raw [] [] Hshape).
Qed.

(** C5: for every location and access point, the averaged RSS is the
    arithmetic mean of the location's readings of that access point that are
    not NaN, and it is NaN exactly when all these readings are NaN. *)
Theorem X_mean_is_mean_of_present_readings
  (X_raw : list (list (list npfloat))) (num_AP : nat) :
  (forall scans, In scans X_raw -> length scans = num_AP) ->
  exists X_mean,
    compute_X_mean X_raw num_AP (length X_raw) = Ok X_mean
    /\ length X_mean = length X_raw
    /\ forall i a, (i < length X_raw)%nat -> (a < num_AP)%nat ->
         (present (nth a (nth i X_raw []) []) <> [] ->
          nth a (nth i X_mean []) NaN
          = Num (arithmetic_mean (present (nth a (nth i X_raw []) []))))
         /\ (nth a (nth i X_mean []) NaN = NaN
             <-> forall v, In v (nth a (nth i X_raw []) []) -> v = NaN).
Proof.
  intros Hshape. exists (map nanmean_axis1 X_raw).
  split; [now apply compute_X_mean_value|]. split; [now rewrite length_map|].
  intros i a Hi Ha.
  assert (Hlen : length (nth i X_raw []) = num_AP)
    by (apply Hshape; now apply nth_In).
  assert (Hnth : nth a (nth i (map nanmean_axis1 X_raw) []) NaN
                 = nanmean (nth a (nth i X_raw []) [])).
  { change (@nil npfloat) with (nanmean_axis1 []) at 1. rewrite map_nth.
    unfold nanmean_axis1.
    rewrite (nth_indep _ NaN (nanmean [])) by (rewrite length_map; lia).
    apply map_nth. }
  rewrite Hnth, nanmean_spec. split.
  - intros Hne. destruct (present (nth a (nth i X_raw []) [])); congruence.
  - rewrite <- present_nil.
    destruct (present (nth a (nth i X_raw []) [])); split; congruence.
Qed.

Lemma X_mean_is_mean_of_present_readings_witness :
  exists X_mean,
    compute_X_mean [[[Num (-50); NaN; Num (-54)]; [NaN; NaN; NaN]]] 2 1
    = Ok X_mean
    /\ nth 0 (nth 0 X_mean []) NaN
       = Num (arithmetic_mean [-50; -54])
    /\ nth 1 (nth 0 X_mean []) NaN = NaN.
Proof.
  destruct (X_mean_is_mean_of_present_readings
              [[[Num (-50); NaN; Num (-54)]; [NaN; NaN; NaN]]] 2)
    as (X_mean & Hrun & _ & Hval).
  - intros scans [<-|[]]. reflexivity.
  - exists X_mean. split; [exact Hrun|]. split.
    + apply (Hval 0%nat 0%nat); simpl; [lia|lia|discriminate].
    + apply (Hval 0%nat 1%nat); simpl; [lia|lia|].
      intros v [<-|[<-|[<-|[]]]]; reflexivity.
Defined.

(** ** The fitting loop *)

Lemma column_value {A : Type} (a : list (list A)) (j : nat) (d : A) :
  (forall row, In row a -> (j < length row)%nat) ->
  column a j = Ok (map (fun row => nth j row d) a).
Proof.
  induction a as [|row a IH]; intros H; simpl; [reflexivity|].
  rewrite (getitem_lt row j d) by (apply H; now left). simpl.
  rewrite IH by (intros r Hr; apply H; now right). reflexivity.
Qed.

Lemma compress_value {A B : Type} (f : B -> bool) (a : list A) (b : list B) :
  length a = length b ->
  compress a (map f b) = Ok (map fst (filter (fun c => f (snd c)) (combine a b))).
Proof.
  revert b. induction a as [|x a IH]; intros [|y b] Hlen; simpl in *;
    try discriminate; [reflexivity|].
  rewrite IH by lia. simpl. destruct (f y); reflexivity.
Qed.

Lemma filter_combine_length {A B : Type} (f : B -> bool) (a : list A) (b : list B) :
  length a = length b ->
  length (filter (fun c => f (snd c)) (combine a b)) = count_true (map f b).
Proof.
  unfold count_true.
  revert b. induction a as [|x a IH]; intros [|y b] Hlen; simpl in *;
    try discriminate; [reflexivity|].
  destruct (f y); simpl; rewrite IH by lia; reflexivity.
Qed.

Section FittingLoop.

Variables (gp : GPlib) (X_train : list coord) (Y_train : list (list npfloat)).
Variable num_AP : nat.

Hypothesis same_length : length X_train = length Y_train.
Hypothesis row_length : forall row, In row Y_train -> (num_AP <= length row)%nat.

Lemma fit_step (i : nat) (st : list (GPmodel gp) * list nat) :
  (i < num_AP)%nat ->
  fit_body gp X_train Y_train i st
  = Ok (if fitted_AP Y_train i
        then (fst st ++ [regressor_of gp X_train Y_train i], snd st ++ [i])
        else st).
Proof.
  intros Hi. unfold fit_body.
  rewrite (column_value Y_train i NaN)
    by (intros row Hrow; specialize (row_length row Hrow); lia).
  simpl. rewrite map_map.
  rewrite (compress_value (fun row => negb (isnan (nth i row NaN))))
    by exact same_length.
  simpl. rewrite length_map.
  rewrite (filter_combine_length (fun row => negb (isnan (nth i row NaN))))
    by exact same_length.
  unfold fitted_AP, support, regressor_of, training_inputs, training_targets.
  destruct (Nat.ltb 10 _); reflexivity.
Qed.

Lemma fit_loop (n : nat) :
  (n <= num_AP)%nat ->
  for_each (range n) (fit_body gp X_train Y_train) ([], [])
  = Ok (map (regressor_of gp X_train Y_train) (filter (fitted_AP Y_train) (range n)),
        filter (fitted_AP Y_train) (range n)).
Proof.
  induction n as [|n IH]; intros Hn; [reflexivity|].
  rewrite range_S, for_each_app, IH by lia.
  cbn [bind for_each]. rewrite fit_step by lia. cbn [bind fst snd].
  rewrite filter_app. cbn [filter]. destruct (fitted_AP Y_train n).
  - now rewrite map_app.
  - now rewrite !app_nil_r.
Qed.

Lemma fit_GPs_value :
  fit_GPs gp X_train Y_train num_AP
  = Ok (map (regressor_of gp X_train Y_train) (filter (fitted_AP Y_train) (range num_AP)), filter (fitted_AP Y_train) (range num_AP)).
Proof. unfold fit_GPs. now apply fit_loop. Qed.

End FittingLoop.

(** The scorer reads a test sample only at the fitted access points. *)
Lemma MAP_estimate_reads_fitted_only grid mean var GP_index GP_num Y_test Y_test' num :
  (forall gi, In gi GP_index -> getitem2 Y_test num gi = getitem2 Y_test' num gi) ->
  MAP_estimate grid mean var GP_index GP_num Y_test num
  = MAP_estimate grid mean var GP_index GP_num Y_test' num.
Proof.
  intros Hsame. unfold MAP_estimate, MAP_index, MAP_sum.
  do 2 f_equal. apply for_each_ext. intros p sum _.
  apply for_each_ext. intros k sum' _. unfold add_logpdf.
  destruct (getitem GP_index k) as [gi|e] eqn:Hgi; [|reflexivity].
  simpl. rewrite Hsame; [reflexivity|].
  apply getitem_Ok in Hgi. eapply nth_error_In; eauto.
Qed.

Lemma predict_grid_row_length (gp : GPlib) (GP : list (GPmodel gp))
  (grid : list coord) (p : nat) :
  (p < length grid)%nat ->
  length (nth p (fst (predict_grid gp GP grid)) []) = length GP
  /\ length (nth p (snd (predict_grid gp GP grid)) []) = length GP.
Proof.
  intros Hp. unfold predict_grid. simpl.
  split.
  - rewrite (nth_indep _ [] ((fun x => map (fun m => fst (predict gp m x)) GP) (0, 0)))
      by now rewrite length_map.
    rewrite (map_nth (fun x => map (fun m => fst (predict gp m x)) GP)).
    now rewrite length_map.
  - rewrite (nth_indep _ [] ((fun x => map (fun m => snd (predict gp m x)) GP) (0, 0)))
      by now rewrite length_map.
    rewrite (map_nth (fun x => map (fun m => snd (predict gp m x)) GP)).
    now rewrite length_map.
Qed.

(** The fitting loop reads the training readings of an access point only
    through its column. *)
Lemma support_column (Y_train : list (list npfloat)) (i : nat) :
  support Y_train i
  = count_true (map (fun v => negb (isnan v)) (map (fun row => nth i row NaN) Y_train)).
Proof. unfold support. now rewrite map_map. Qed.

Lemma training_inputs_column (X_train : list coord) (Y_train : list (list npfloat))
  (i : nat) :
  training_inputs X_train Y_train i
  = map fst (filter (fun c => negb (isnan (snd c)))
               (combine X_train (map (fun row => nth i row NaN) Y_train))).
Proof.
  unfold training_inputs. revert Y_train.
  induction X_train as [|x X_train IH]; intros [|row Y_train]; simpl; auto.
  destruct (isnan (nth i row NaN)); simpl; now rewrite IH.
Qed.

Lemma fit_GPs_reads_fitted_columns (gp : GPlib) (X_train : list coord)
  (Y_train Y_train' : list (list npfloat)) (num_AP : nat) :
  length X_train = length Y_train ->
  length X_train = length Y_train' ->
  (forall row, In row Y_train -> (num_AP <= length row)%nat) ->
  (forall row, In row Y_train' -> (num_AP <= length row)%nat) ->
  (forall i, (i < num_AP)%nat ->
     (10 < support Y_train i)%nat \/ (10 < support Y_train' i)%nat ->
     map (fun row => nth i row NaN) Y_train
     = map (fun row => nth i row NaN) Y_train') ->
  fit_GPs gp X_train Y_train' num_AP = fit_GPs gp X_train Y_train num_AP.
Proof.
  intros Hlen Hlen' Hrows Hrows' Hcols.
  rewrite !fit_GPs_value by assumption.
  assert (Hfit : forall i, In i (range num_AP) ->
            fitted_AP Y_train' i = fitted_AP Y_train i).
  { intros i Hi. unfold range in Hi. apply in_seq in Hi. unfold fitted_AP.
    destruct (Nat.ltb_spec 10 (support Y_train i)) as [H|H].
    - apply Nat.ltb_lt.
      assert (Hc := Hcols i (proj2 Hi) (or_introl H)).
      now rewrite support_column, <- Hc, <- support_column.
    - apply Nat.ltb_ge. destruct (Nat.le_gt_cases (support Y_train' i) 10) as [H'|H'];
        [exact H'|].
      assert (Hc := Hcols i (proj2 Hi) (or_intror H')).
      rewrite support_column, <- Hc, <- support_column in H'. lia. }
  rewrite (filter_ext_in _ _ _ Hfit). do 2 f_equal.
  apply map_ext_in. intros i Hi. apply filter_In in Hi as [Hi Hfitted].
  unfold range in Hi. apply in_seq in Hi.
  unfold fitted_AP in Hfitted. apply Nat.ltb_lt in Hfitted.
  assert (Hc := Hcols i (proj2 Hi) (or_introl Hfitted)).
  unfold regressor_of, training_targets.
  now rewrite !training_inputs_column, Hc.
Qed.

(** C3: the fitting loop fits a regressor for access point [i] if and only if
    more than 10 training locations have an averaged RSS of [i] that is not
    NaN; the other access points get no regressor, no column in the
    prediction arrays, their training readings do not reach the fitted
    regressors, and the scorer never reads their test readings. *)
Theorem regressor_fitted_iff_support_exceeds_ten
  (gp : GPlib) (X_train : list coord) (Y_train : list (list npfloat)) (num_AP : nat) :
  length X_train = length Y_train ->
  (forall row, In row Y_train -> (num_AP <= length row)%nat) ->
  exists GP GP_index,
    fit_GPs gp X_train Y_train num_AP = Ok (GP, GP_index)
    /\ GP_index = filter (fun i => Nat.ltb 10 (support Y_train i)) (range num_AP)
    /\ GP = map (regressor_of gp X_train Y_train) GP_index
    /\ (forall i, In i GP_index <-> (i < num_AP)%nat /\ (10 < support Y_train i)%nat)
    /\ (forall grid p, (p < length grid)%nat ->
          length (nth p (fst (predict_grid gp GP grid)) []) = length GP_index
          /\ length (nth p (snd (predict_grid gp GP grid)) []) = length GP_index)
    /\ (forall Y_train',
          length X_train = length Y_train' ->
          (forall row, In row Y_train' -> (num_AP <= length row)%nat) ->
          (forall i, (i < num_AP)%nat ->
             (10 < support Y_train i)%nat \/ (10 < support Y_train' i)%nat ->
             map (fun row => nth i row NaN) Y_train
             = map (fun row => nth i row NaN) Y_train') ->
          fit_GPs gp X_train Y_train' num_AP = Ok (GP, GP_index))
    /\ (forall grid mean var Y_test Y_test' num,
          (forall i, In i GP_index ->
             getitem2 Y_test num i = getitem2 Y_test' num i) ->
          MAP_estimate grid mean var GP_index (length GP) Y_test num
          = MAP_estimate grid mean var GP_index (length GP) Y_test' num).
Proof.
  intros Hlen Hrows.
  exists (map (regressor_of gp X_train Y_train)
            (filter (fitted_AP Y_train) (range num_AP))),
         (filter (fitted_AP Y_train) (range num_AP)).
  split; [now apply fit_GPs_value|]. split; [reflexivity|].
  split; [reflexivity|]. split; [|split; [|split]].
  - intros i. rewrite filter_In. unfold range, fitted_AP.
    rewrite in_seq, Nat.ltb_lt. lia.
  - intros grid p Hp.
    destruct (predict_grid_row_length gp
                (map (regressor_of gp X_train Y_train)
                   (filter (fitted_AP Y_train) (range num_AP))) grid p Hp)
      as [H1 H2].
    rewrite H1, H2, length_map. auto.
  - intros Y_train' Hlen' Hrows' Hcols.
    rewrite (fit_GPs_reads_fitted_columns gp X_train Y_train Y_train' num_AP)
      by assumption.
    now apply fit_GPs_value.
  - intros grid mean var Y_test Y_test' num Hsame.
    now apply MAP_estimate_reads_fitted_only.
Qed.

Lemma regressor_fitted_iff_support_exceeds_ten_witness :
  exists GP,
    fit_GPs constant_regressor
      [(0, 0); (1, 0); (2, 0); (3, 0); (4, 0); (5, 0); (6, 0); (7, 0); (8, 0);
       (9, 0); (10, 0)]
      [[Num (-50); Num (-70)]; [Num (-51); Num (-71)]; [Num (-52); Num (-72)];
       [Num (-53); Num (-73)]; [Num (-54); Num (-74)]; [Num (-55); Num (-75)];
       [Num (-56); Num (-76)]; [Num (-57); Num (-77)]; [Num (-58); Num (-78)];
       [Num (-59); Num (-79)]; [Num (-60); NaN]]
      2
    = Ok (GP, [0%nat]).
Proof.
  destruct (regressor_fitted_iff_support_exceeds_ten constant_regressor
      [(0, 0); (1, 0); (2, 0); (3, 0); (4, 0); (5, 0); (6, 0); (7, 0); (8, 0);
       (9, 0); (10, 0)]
      [[Num (-50); Num (-70)]; [Num (-51); Num (-71)]; [Num (-52); Num (-72)];
       [Num (-53); Num (-73)]; [Num (-54); Num (-74)]; [Num (-55); Num (-75)];
       [Num (-56); Num (-76)]; [Num (-57); Num (-77)]; [Num (-58); Num (-78)];
       [Num (-59); Num (-79)]; [Num (-60); NaN]]
      2) as (GP & GP_index & Hfit & Hindex & _).
  - reflexivity.
  - intros row Hrow. simpl in Hrow.
    repeat (destruct Hrow as [<-|Hrow]; [simpl; lia|]). contradiction.
  - exists GP. rewrite Hfit, Hindex. reflexivity.
Defined.

(** ** The search grid *)

Lemma fold_left_Rmin_spec (t : list R) (x : R) :
  In (fold_left Rmin t x) (x :: t)
  /\ forall y, In y (x :: t) -> fold_left Rmin t x <= y.
Proof.
  revert x. induction t as [|z t IH]; intros x; simpl.
  - split; [now left|]. intros y [<-|[]]. lra.
  - destruct (IH (Rmin x z)) as [Hin Hle]. split.
    + destruct Hin as [Heq|Hin]; [|now right; right].
      rewrite <- Heq. unfold Rmin. destruct (Rle_dec x z); auto.
    + intros y Hy.
      assert (Hm : fold_left Rmin t (Rmin x z) <= Rmin x z) by (apply Hle; now left).
      pose proof (Rmin_l x z). pose proof (Rmin_r x z).
      destruct Hy as [<-|[<-|Hy]]; try lra. apply Hle. now right.
Qed.

Lemma fold_left_Rmax_spec (t : list R) (x : R) :
  In (fold_left Rmax t x) (x :: t)
  /\ forall y, In y (x :: t) -> y <= fold_left Rmax t x.
Proof.
  revert x. induction t as [|z t IH]; intros x; simpl.
  - split; [now left|]. intros y [<-|[]]. lra.
  - destruct (IH (Rmax x z)) as [Hin Hle]. split.
    + destruct Hin as [Heq|Hin]; [|now right; right].
      rewrite <- Heq. unfold Rmax. destruct (Rle_dec x z); auto.
    + intros y Hy.
      assert (Hm : Rmax x z <= fold_left Rmax t (Rmax x z)) by (apply Hle; now left).
      pose proof (Rmax_l x z). pose proof (Rmax_r x z).
      destruct Hy as [<-|[<-|Hy]]; try lra. apply Hle. now right.
Qed.

Lemma amin_spec (l : list R) :
  l <> [] ->
  exists m, amin l = Ok m /\ In m l /\ forall y, In y l -> m <= y.
Proof.
  destruct l as [|x t]; [congruence|]. intros _.
  exists (fold_left Rmin t x). split; [reflexivity|]. apply fold_left_Rmin_spec.
Qed.

Lemma amax_spec (l : list R) :
  l <> [] ->
  exists m, amax l = Ok m /\ In m l /\ forall y, In y l -> y <= m.
Proof.
  destruct l as [|x t]; [congruence|]. intros _.
  exists (fold_left Rmax t x). split; [reflexivity|]. apply fold_left_Rmax_spec.
Qed.

Lemma linspace_length (a b : R) (n : nat) : length (linspace a b n) = n.
Proof.
  destruct n as [|[|n]]; [reflexivity|reflexivity|].
  unfold linspace, range. rewrite length_app, length_map, length_seq. simpl. lia.
Qed.

Lemma linspace_ends (a b : R) (n : nat) :
  In a (linspace a b (S (S n))) /\ In b (linspace a b (S (S n))).
Proof.
  unfold linspace. split.
  - apply in_or_app. left. apply in_map_iff. exists 0%nat. split.
    + simpl. lra.
    + unfold range. apply in_seq. lia.
  - apply in_or_app. right. now left.
Qed.

Lemma linspace_bounds (a b : R) (n : nat) (x : R) :
  a <= b -> In x (linspace a b (S (S n))) -> a <= x <= b.
Proof.
  intros Hab Hx. unfold linspace in Hx. apply in_app_or in Hx as [Hx|[<-|[]]];
    [|lra].
  apply in_map_iff in Hx as (i & <- & Hi). unfold range in Hi. apply in_seq in Hi.
  assert (Hdiv : 0 < INR (S n)) by (apply lt_0_INR; lia).
  assert (Hi0 : 0 <= INR i) by apply pos_INR.
  assert (Hin : INR i <= INR (S n)) by (apply le_INR; lia).
  assert (Hstep : 0 <= (b - a) / INR (S n)).
  { apply Rmult_le_pos; [lra|]. left. now apply Rinv_0_lt_compat. }
  assert (Htop : INR (S n) * ((b - a) / INR (S n)) = b - a) by (field; lra).
  split.
  - assert (0 <= INR i * ((b - a) / INR (S n))) by now apply Rmult_le_pos.
    lra.
  - assert (INR i * ((b - a) / INR (S n)) <= INR (S n) * ((b - a) / INR (S n)))
      by now apply Rmult_le_compat_r.
    lra.
Qed.

Lemma combine_app_same {A B : Type} (l1 l2 : list A) (m1 m2 : list B) :
  length l1 = length m1 ->
  combine (l1 ++ l2) (m1 ++ m2) = combine l1 m1 ++ combine l2 m2.
Proof.
  revert m1. induction l1 as [|x l1 IH]; intros [|y m1] H; simpl in *;
    try discriminate; [reflexivity|].
  rewrite IH by lia. reflexivity.
Qed.

Lemma combine_const {A B : Type} (l : list A) (y : B) :
  combine l (map (fun _ => y) l) = map (fun x => (x, y)) l.
Proof.
  induction l as [|x l IH]; simpl; [reflexivity|]. now rewrite IH.
Qed.

Lemma mesh_points (xs ys : list R) :
  combine (concat (fst (meshgrid xs ys))) (concat (snd (meshgrid xs ys)))
  = flat_map (fun y => map (fun x => (x, y)) xs) ys.
Proof.
  unfold meshgrid. simpl. induction ys as [|y ys IH]; simpl; [reflexivity|].
  rewrite combine_app_same by now rewrite length_map.
  now rewrite combine_const, IH.
Qed.

Lemma mesh_lengths (xs ys : list R) :
  length (concat (fst (meshgrid xs ys))) = (length ys * length xs)%nat
  /\ length (concat (snd (meshgrid xs ys))) = (length ys * length xs)%nat.
Proof.
  unfold meshgrid. simpl. induction ys as [|y ys [IH1 IH2]]; simpl; [auto|].
  rewrite !length_app, length_map, IH1, IH2. auto.
Qed.

Lemma mesh_points_length (xs ys : list R) :
  length (flat_map (fun y => map (fun x => (x, y)) xs) ys)
  = (length ys * length xs)%nat.
Proof.
  induction ys as [|y ys IH]; simpl; [reflexivity|].
  now rewrite length_app, length_map, IH.
Qed.

Lemma mesh_points_In (xs ys : list R) (c : coord) :
  In c (flat_map (fun y => map (fun x => (x, y)) xs) ys)
  <-> In (fst c) xs /\ In (snd c) ys.
Proof.
  rewrite in_flat_map. split.
  - intros (y & Hy & Hc). apply in_map_iff in Hc as (x & <- & Hx). auto.
  - intros [Hx Hy]. exists (snd c). split; [exact Hy|].
    apply in_map_iff. exists (fst c). split; [now destruct c|exact Hx].
Qed.

Lemma make_grid_value (Y : list (list R)) (min_X min_Y max_X max_Y : R) :
  search_space Y = Ok (min_X, min_Y, max_X, max_Y) ->
  make_grid Y
  = Ok (flat_map (fun y => map (fun x => (x, y)) (linspace min_X max_X N))
          (linspace min_Y max_Y N)).
Proof.
  intros Hs. unfold make_grid. rewrite Hs. cbn [bind].
  destruct (mesh_lengths (linspace min_X max_X N) (linspace min_Y max_Y N))
    as [H1 H2].
  unfold reshape_column. rewrite H1, H2, !linspace_length, Nat.eqb_refl.
  cbn [bind]. now rewrite mesh_points.
Qed.

Lemma search_space_spec (xs ys : list R) (rest : list (list R)) :
  xs <> [] -> ys <> [] ->
  exists min_X min_Y max_X max_Y,
    search_space (xs :: ys :: rest) = Ok (min_X, min_Y, max_X, max_Y)
    /\ (In min_X xs /\ In max_X xs /\ forall x, In x xs -> min_X <= x <= max_X)
    /\ (In min_Y ys /\ In max_Y ys /\ forall y, In y ys -> min_Y <= y <= max_Y).
Proof.
  intros Hxs Hys.
  destruct (amin_spec xs Hxs) as (min_X & Hmin_X & Hin_min_X & Hle_min_X).
  destruct (amin_spec ys Hys) as (min_Y & Hmin_Y & Hin_min_Y & Hle_min_Y).
  destruct (amax_spec xs Hxs) as (max_X & Hmax_X & Hin_max_X & Hle_max_X).
  destruct (amax_spec ys Hys) as (max_Y & Hmax_Y & Hin_max_Y & Hle_max_Y).
  exists min_X, min_Y, max_X, max_Y. split; [|split].
  - unfold search_space, getitem. simpl.
    rewrite Hmin_X. simpl. rewrite Hmin_Y. simpl.
    rewrite Hmax_X. simpl. rewrite Hmax_Y. reflexivity.
  - repeat split; auto.
  - repeat split; auto.
Qed.

(** C10: the grid has 50 x 50 points, all within the bounding box of the
    surveyed coordinates, whose four corners are grid points; every location
    the scorer returns is a grid point, so its coordinates lie between the
    smallest and the largest surveyed x and y. *)
Theorem inferred_location_within_bounding_box
  (xs ys : list R) (rest : list (list R)) :
  xs <> [] -> ys <> [] ->
  exists min_X min_Y max_X max_Y grid,
    search_space (xs :: ys :: rest) = Ok (min_X, min_Y, max_X, max_Y)
    /\ make_grid (xs :: ys :: rest) = Ok grid
    /\ length grid = (50 * 50)%nat
    /\ (In min_X xs /\ In max_X xs /\ forall x, In x xs -> min_X <= x <= max_X)
    /\ (In min_Y ys /\ In max_Y ys /\ forall y, In y ys -> min_Y <= y <= max_Y)
    /\ (forall c, In c grid ->
          min_X <= fst c <= max_X /\ min_Y <= snd c <= max_Y)
    /\ (In (min_X, min_Y) grid /\ In (max_X, min_Y) grid
        /\ In (min_X, max_Y) grid /\ In (max_X, max_Y) grid)
    /\ (forall mean var GP_index GP_num Y_test num c,
          MAP_estimate grid mean var GP_index GP_num Y_test num = Ok c ->
          In c grid /\ min_X <= fst c <= max_X /\ min_Y <= snd c <= max_Y).
Proof.
  intros Hxs Hys.
  destruct (search_space_spec xs ys rest Hxs Hys)
    as (min_X & min_Y & max_X & max_Y & Hspace & HX & HY).
  exists min_X, min_Y, max_X, max_Y.
  exists (flat_map (fun y => map (fun x => (x, y)) (linspace min_X max_X N))
            (linspace min_Y max_Y N)).
  assert (HXle : min_X <= max_X) by (destruct HX as (H & _ & Hall); apply Hall, H).
  assert (HYle : min_Y <= max_Y) by (destruct HY as (H & _ & Hall); apply Hall, H).
  assert (Hbox : forall c,
            In c (flat_map (fun y => map (fun x => (x, y)) (linspace min_X max_X N))
                    (linspace min_Y max_Y N)) ->
            min_X <= fst c <= max_X /\ min_Y <= snd c <= max_Y).
  { intros c Hc. apply mesh_points_In in Hc as [Hx Hy].
    change N with (S (S 48)) in Hx, Hy. split.
    - now apply (linspace_bounds min_X max_X 48).
    - now apply (linspace_bounds min_Y max_Y 48). }
  destruct (linspace_ends min_X max_X 48) as [HminX HmaxX].
  destruct (linspace_ends min_Y max_Y 48) as [HminY HmaxY].
  split; [exact Hspace|]. split; [now apply make_grid_value|].
  split; [now rewrite mesh_points_length, !linspace_length|].
  split; [exact HX|]. split; [exact HY|]. split; [exact Hbox|]. split.
  - change N with (S (S 48)). repeat split; apply mesh_points_In; split; assumption.
  - intros mean var GP_index GP_num Y_test num c Hc.
    apply MAP_estimate_in_grid in Hc. split; [exact Hc|]. now apply Hbox.
Qed.

Lemma inferred_location_within_bounding_box_witness :
  exists grid,
    make_grid [[0; 4; 2]; [1; 3; 5]] = Ok grid
    /\ length grid = (50 * 50)%nat
    /\ In (0, 1) grid /\ In (4, 5) grid.
Proof.
  destruct (inferred_location_within_bounding_box [0; 4; 2] [1; 3; 5] [])
    as (min_X & min_Y & max_X & max_Y & grid & Hspace & Hgrid & Hlen & _ & _ & _
        & (Hlow & _ & _ & Hhigh) & _); try discriminate.
  exists grid. split; [exact Hgrid|]. split; [exact Hlen|].
  assert (Hvals : (min_X, min_Y, max_X, max_Y) = (0, 1, 4, 5)).
  { assert (Hrun : search_space [[0; 4; 2]; [1; 3; 5]] = Ok (0, 1, 4, 5)).
    { unfold search_space, getitem, amin, amax. simpl.
      rewrite (Rmin_left 0 4), (Rmin_left 0 2), (Rmin_left 1 3), (Rmin_left 1 5),
        (Rmax_right 0 4), (Rmax_left 4 2), (Rmax_right 1 3), (Rmax_right 3 5)
        by lra.
      reflexivity. }
    rewrite Hrun in Hspace. now inversion Hspace. }
  inversion Hvals; subst. auto.
Defined.

(** ** The localization error and the cross validation *)

Lemma take_value {A : Type} (a : list A) (idx : list nat) (d : A) :
  (forall i, In i idx -> (i < length a)%nat) ->
  take a idx = Ok (map (fun i => nth i a d) idx).
Proof.
  induction idx as [|i idx IH]; intros H; simpl; [reflexivity|].
  rewrite (getitem_lt a i d) by (apply H; now left). simpl.
  rewrite IH by (intros j Hj; apply H; now right). reflexivity.
Qed.

Lemma localization_errors_value (X_test Y_hat : list coord) :
  length X_test = length Y_hat ->
  localization_errors X_test Y_hat
  = Ok (map (fun c => euclidean_distance (fst c) (snd c)) (combine X_test Y_hat)).
Proof.
  intros Hlen. unfold localization_errors, subtract, transpose. simpl.
  unfold coord in *.
  rewrite !length_map, Hlen, Nat.eqb_refl. simpl. f_equal.
  unfold norm_axis0. simpl.
  revert Y_hat Hlen. induction X_test as [|a X_test IH]; intros [|b Y_hat] Hlen;
    simpl in *; try discriminate; [reflexivity|].
  rewrite IH by lia. reflexivity.
Qed.

Lemma mean_value (l : list R) :
  l <> [] -> Np.mean l = Num (arithmetic_mean l).
Proof.
  destruct l as [|x l]; [congruence|]. intros _. reflexivity.
Qed.

Lemma predict_grid_defined (gp : GPlib) (GP : list (GPmodel gp)) (grid : list coord)
  (p k : nat) :
  (p < length grid)%nat -> (k < length GP)%nat ->
  exists m x,
    getitem2 (fst (predict_grid gp GP grid)) p k = Ok (fst (predict gp m x))
    /\ getitem2 (snd (predict_grid gp GP grid)) p k = Ok (snd (predict gp m x)).
Proof.
  intros Hp Hk.
  destruct (nth_error grid p) as [x|] eqn:Hx;
    [|apply nth_error_None in Hx; lia].
  destruct (nth_error GP k) as [m|] eqn:Hm;
    [|apply nth_error_None in Hm; lia].
  exists m, x. unfold predict_grid, getitem2, getitem. simpl.
  rewrite !nth_error_map, Hx. simpl. rewrite !nth_error_map, Hm. auto.
Qed.

Lemma Forall2_exists {A B : Type} (P : A -> B -> Prop) (l : list A) :
  (forall a, In a l -> exists b, P a b) -> exists l', Forall2 P l l'.
Proof.
  induction l as [|a l IH]; intros H.
  - exists []. constructor.
  - destruct (H a (or_introl eq_refl)) as (b & Hb).
    destruct IH as (l' & Hl'); [intros a' Ha'; apply H; now right|].
    exists (b :: l'). now constructor.
Qed.

Section CrossValidation.

Variables (gp : GPlib) (num_AP : nat) (grid : list coord).
Variables (X : list coord) (y : list (list npfloat)).

Hypothesis grid_nonempty : (0 < length grid)%nat.
Hypothesis variance_positive : forall m x, 0 < snd (predict gp m x).
Hypothesis same_length : length X = length y.
Hypothesis row_length : forall row, In row y -> length row = num_AP.

Lemma cv_fold_value (fold : list nat * list nat) :
  (forall i, In i (fst fold) -> (i < length X)%nat) ->
  (forall i, In i (snd fold) -> (i < length X)%nat) ->
  exists Y_hat,
    cv_fold gp num_AP grid X y fold
    = Ok (map (fun i => nth i X (0, 0)) (snd fold), Y_hat)
    /\ length Y_hat = length (snd fold)
    /\ forall c, In c Y_hat -> In c grid.
Proof.
  intros Htrain Htest. unfold cv_fold.
  rewrite (take_value X (fst fold) (0, 0)) by exact Htrain. cbn [bind].
  rewrite (take_value X (snd fold) (0, 0)) by exact Htest. cbn [bind].
  rewrite (take_value y (fst fold) [])
    by (intros i Hi; rewrite <- same_length; now apply Htrain).
  cbn [bind].
  rewrite (take_value y (snd fold) [])
    by (intros i Hi; rewrite <- same_length; now apply Htest).
  cbn [bind].
  set (X_train := map (fun i => nth i X (0, 0)) (fst fold)).
  set (Y_train := map (fun i => nth i y []) (fst fold)).
  set (X_test := map (fun i => nth i X (0, 0)) (snd fold)).
  set (Y_test := map (fun i => nth i y []) (snd fold)).
  assert (Hrows : forall idx row,
            (forall i, In i idx -> (i < length X)%nat) ->
            In row (map (fun i => nth i y []) idx) -> length row = num_AP).
  { intros idx row Hidx Hrow. apply in_map_iff in Hrow as (i & <- & Hi).
    apply row_length, nth_In. rewrite <- same_length. now apply Hidx. }
  rewrite (fit_GPs_value gp X_train Y_train num_AP).
  2: { unfold X_train, Y_train. now rewrite !length_map. }
  2: { intros row Hrow. rewrite (Hrows (fst fold) row Htrain Hrow). lia. }
  cbn [bind fst snd].
  set (GP_index := filter (fitted_AP Y_train) (range num_AP)).
  set (GP := map (regressor_of gp X_train Y_train) GP_index).
  destruct (MAP_scorer_total grid (fst (predict_grid gp GP grid))
              (snd (predict_grid gp GP grid)) GP_index (length GP) Y_test
              (length X_test)) as (Y_hat & Hrun & Hlen & Hin).
  - exact grid_nonempty.
  - intros p k Hp Hk.
    destruct (predict_grid_defined gp GP grid p k Hp Hk) as (m & x & H1 & H2).
    eauto.
  - intros p k Hp Hk.
    destruct (predict_grid_defined gp GP grid p k Hp Hk) as (m & x & _ & H2).
    rewrite (getitem2_nth _ _ _ _ 0 H2). apply variance_positive.
  - intros num Hnum k Hk.
    unfold GP in Hk. rewrite length_map in Hk.
    exists (nth k GP_index 0%nat).
    assert (Hgi : (nth k GP_index 0 < num_AP)%nat).
    { assert (Hmem : In (nth k GP_index 0%nat) GP_index) by now apply nth_In.
      generalize (nth k GP_index 0%nat) Hmem. intros gi Hgi.
      unfold GP_index in Hgi. apply filter_In in Hgi as [Hgi _].
      unfold range in Hgi. apply in_seq in Hgi. lia. }
    unfold X_test in Hnum. rewrite length_map in Hnum.
    assert (Hrow : length (nth num Y_test []) = num_AP).
    { apply (Hrows (snd fold)); [exact Htest|]. apply nth_In.
      unfold Y_test. now rewrite length_map. }
    exists (nth (nth k GP_index 0%nat) (nth num Y_test []) NaN).
    split; [now apply getitem_lt|].
    unfold getitem2. rewrite (getitem_lt Y_test num [])
      by (unfold Y_test; now rewrite length_map).
    cbn [bind]. apply getitem_lt. lia.
  - exists Y_hat. rewrite Hrun. cbn [bind]. split; [reflexivity|].
    split; [rewrite Hlen; unfold X_test; now rewrite length_map|].
    intros c Hc. destruct (In_nth _ _ (0, 0) Hc) as (num & Hnum & <-).
    eapply MAP_estimate_in_grid. apply Hin. rewrite <- Hlen. exact Hnum.
Qed.

Lemma cv_loop (folds : list (list nat * list nat))
  (results : list (list coord * list coord)) (acc : R) :
  Forall2 (fun fold r =>
             cv_fold gp num_AP grid X y fold = Ok r
             /\ length (fst r) = length (snd r) /\ fst r <> [])
    folds results ->
  for_each folds (cv_step gp num_AP grid X y) (Num acc)
  = Ok (Num (acc + Np.sum (map fold_mean_error results))).
Proof.
  intros H. revert acc. induction H as [|fold r folds results (Hrun & Hlen & Hne) _ IH];
    intros acc; simpl.
  - now rewrite Rplus_0_r.
  - unfold cv_step at 1. rewrite Hrun. cbn [bind].
    rewrite localization_errors_value by exact Hlen. cbn [bind].
    rewrite mean_value.
    + simpl. rewrite IH. do 2 f_equal. unfold fold_mean_error. lra.
    + destruct r as [[|a X_test] [|b Y_hat]]; simpl in *; congruence.
Qed.

End CrossValidation.

Lemma KFold_fold_indices (k n : nat) (folds : list (list nat * list nat))
  (fold : list nat * list nat) :
  (0 < k)%nat -> (k <= n)%nat ->
  KFold_split k n = Ok folds -> In fold folds ->
  (forall i, In i (fst fold) -> (i < n)%nat)
  /\ (forall i, In i (snd fold) -> (i < n)%nat)
  /\ snd fold <> [].
Proof.
  intros Hk Hkn Hrun Hin.
  destruct (KFold_split_spec k n Hk Hkn)
    as (folds' & Hrun' & Hlen & Hcat & Hsize & _ & Htrain).
  rewrite Hrun in Hrun'. inversion Hrun'; subst folds'. clear Hrun'.
  destruct (In_nth _ _ ([], []) Hin) as (j & Hj & <-). rewrite Hlen in Hj.
  split; [|split].
  - intros i Hi. now apply (Htrain j i Hj) in Hi.
  - intros i Hi.
    assert (Hmem : In i (concat (map snd folds))).
    { apply in_concat. exists (snd (nth j folds ([], []))). split; [|exact Hi].
      apply in_map, nth_In. lia. }
    rewrite Hcat in Hmem. unfold range in Hmem. apply in_seq in Hmem. lia.
  - intros Hnil. specialize (Hsize j Hj). rewrite Hnil in Hsize. simpl in Hsize.
    assert (0 < n / k)%nat by (apply Nat.div_str_pos; lia). lia.
Qed.

(** C6: the reported cross-validation error is the arithmetic mean of the ten
    per-fold mean errors, each of them the arithmetic mean, over the test
    samples of the fold, of the Euclidean distance between the true and the
    inferred coordinates. *)
Theorem cross_validation_error_is_mean_of_fold_means
  (gp : GPlib) (num_AP : nat) (grid : list coord)
  (X_raw : list (list (list npfloat))) (xs ys : list R) (rest : list (list R)) :
  (0 < length grid)%nat ->
  (forall m x, 0 < snd (predict gp m x)) ->
  length xs = length X_raw ->
  length ys = length X_raw ->
  (10 <= length X_raw)%nat ->
  (forall scans, In scans X_raw -> length scans = num_AP) ->
  exists folds results,
    KFold_split 10 (length X_raw) = Ok folds
    /\ length folds = 10%nat
    /\ length results = 10%nat
    /\ Forall2
         (fun fold r =>
            cv_fold gp num_AP grid (combine xs ys) (map nanmean_axis1 X_raw) fold
            = Ok r
            /\ fst r = map (fun i => nth i (combine xs ys) (0, 0)) (snd fold)
            /\ length (fst r) = length (snd r)
            /\ fst r <> [])
         folds results
    /\ cross_validation gp num_AP grid X_raw (xs :: ys :: rest)
       = Ok (Num (arithmetic_mean (map fold_mean_error results))).
Proof.
  intros Hgrid Hvar Hxs Hys Hn Hshape.
  set (X := combine xs ys : list coord). set (y := map nanmean_axis1 X_raw).
  assert (HX : length X = length X_raw)
    by (unfold X, coord; rewrite length_combine; lia).
  assert (Hy : length X = length y) by (unfold y; now rewrite length_map).
  assert (Hrows : forall row, In row y -> length row = num_AP).
  { intros row Hrow. unfold y in Hrow. apply in_map_iff in Hrow as (scans & <- & Hs).
    unfold nanmean_axis1. rewrite length_map. now apply Hshape. }
  destruct (KFold_split_spec 10 (length X_raw)) as (folds & Hrun & Hlen & _);
    [lia|lia|].
  destruct (Forall2_exists
              (fun fold r =>
                 cv_fold gp num_AP grid X y fold = Ok r
                 /\ fst r = map (fun i => nth i X (0, 0)) (snd fold)
                 /\ length (fst r) = length (snd r)
                 /\ fst r <> [])
              folds) as (results & Hres).
  { intros fold Hfold.
    destruct (KFold_fold_indices 10 (length X_raw) folds fold) as (Htr & Hte & Hne);
      auto; try lia.
    rewrite <- HX in Htr, Hte.
    destruct (cv_fold_value gp num_AP grid X y Hgrid Hvar Hy Hrows fold Htr Hte)
      as (Y_hat & Hfold_run & HY_hat & _).
    exists (map (fun i => nth i X (0, 0)) (snd fold), Y_hat).
    cbn [fst snd]. repeat split; auto.
    - rewrite length_map. now rewrite HY_hat.
    - destruct (snd fold); [congruence|discriminate]. }
  assert (Hres_len : length results = 10%nat)
    by (rewrite <- (Forall2_length Hres); exact Hlen).
  exists folds, results. split; [exact Hrun|]. split; [exact Hlen|].
  split; [exact Hres_len|]. split; [exact Hres|].
  unfold cross_validation, num_loc_of, Y_new_of, getitem. cbn [nth_error bind].
  rewrite Hxs, (compute_X_mean_value X_raw num_AP Hshape). cbn [bind].
  change (combine xs ys) with X. change (map nanmean_axis1 X_raw) with y.
  rewrite HX, Hrun. cbn [bind].
  rewrite (cv_loop gp num_AP grid X y folds results 0).
  - cbn [bind]. unfold div_int, arithmetic_mean.
    rewrite length_map, Hres_len, Rplus_0_l. reflexivity.
  - eapply Forall2_impl; [|exact Hres]. cbn beta. intros fold r (H1 & _ & H3 & H4).
    auto.
Qed.

Lemma cross_validation_error_is_mean_of_fold_means_witness :
  exists e,
    cross_validation constant_regressor 1 [(0, 0); (1, 1)]
      [[[Num (-50)]]; [[Num (-51)]]; [[Num (-52)]]; [[NaN]]; [[Num (-54)]];
       [[Num (-55)]]; [[Num (-56)]]; [[Num (-57)]]; [[Num (-58)]]; [[Num (-59)]]]
      [[0; 1; 2; 3; 4; 5; 6; 7; 8; 9]; [0; 0; 0; 0; 0; 1; 1; 1; 1; 1]]
    = Ok (Num e).
Proof.
  destruct (cross_validation_error_is_mean_of_fold_means
      constant_regressor 1 [(0, 0); (1, 1)]
      [[[Num (-50)]]; [[Num (-51)]]; [[Num (-52)]]; [[NaN]]; [[Num (-54)]];
       [[Num (-55)]]; [[Num (-56)]]; [[Num (-57)]]; [[Num (-58)]]; [[Num (-59)]]]
      [0; 1; 2; 3; 4; 5; 6; 7; 8; 9] [0; 0; 0; 0; 0; 1; 1; 1; 1; 1] [])
    as (folds & results & _ & _ & _ & _ & Hrun).
  - simpl. lia.
  - intros m x. simpl. lra.
  - reflexivity.
  - reflexivity.
  - simpl. lia.
  - intros scans Hin. simpl in Hin.
    repeat (destruct Hin as [<-|Hin]; [reflexivity|]). contradiction.
  - eexists. exact Hrun.
Defined.

(** * Further properties of the notebook's code *)

(** ** When the scorer returns *)

Lemma for_each_Ok_inv {I S : Type} (l : list I) (body : I -> S -> result S) (s s' : S) :
  for_each l body s = Ok s' ->
  forall i, In i l -> exists s1 s2, body i s1 = Ok s2.
Proof.
  revert s. induction l as [|j l IH]; intros s H i Hi; simpl in *; [contradiction|].
  apply bind_Ok in H as (s1 & Hj & Hrest).
  destruct Hi as [<-|Hi]; [now exists s, s1|]. now apply (IH s1).
Qed.




(** ** The layout and the resolution of the grid *)

Lemma linspace_nth (a b : R) (n j : nat) :
  (j <= S n)%nat ->
  nth j (linspace a b (S (S n))) 0 = a + INR j * ((b - a) / INR (S n)).
Proof.
  intros Hj. unfold linspace.
  assert (Hdiv : 0 < INR (S n)) by (apply lt_0_INR; lia).
  destruct (Nat.eq_dec j (S n)) as [->|Hne].
  - rewrite app_nth2; unfold range; rewrite length_map, length_seq; [|lia].
    rewrite Nat.sub_diag. simpl nth. field. lra.
  - rewrite app_nth1 by (unfold range; rewrite length_map, length_seq; lia).
    rewrite nth_map_range by lia. lra.
Qed.

Lemma mesh_points_nth (xs ys : list R) (i j : nat) :
  (i < length ys)%nat -> (j < length xs)%nat ->
  nth (i * length xs + j) (flat_map (fun y => map (fun x => (x, y)) xs) ys) (0, 0)
  = (nth j xs 0, nth i ys 0).
Proof.
  revert i. induction ys as [|y ys IH]; intros i Hi Hj; simpl in Hi; [lia|].
  simpl flat_map. destruct i as [|i].
  - rewrite app_nth1 by (rewrite length_map; simpl; lia). simpl.
    rewrite (nth_indep _ (0, 0) ((fun x => (x, y)) 0)) by (rewrite length_map; lia).
    now rewrite (map_nth (fun x => (x, y))).
  - rewrite app_nth2 by (rewrite length_map; simpl; lia).
    rewrite length_map.
    replace (S i * length xs + j - length xs)%nat with (i * length xs + j)%nat
      by (simpl; lia).
    rewrite IH by lia. reflexivity.
Qed.

(** The grid is laid out row by row, x running fastest: point [i * 50 + j] has
    the [j]-th of 50 evenly spaced x between [min_X] and [max_X] and the
    [i]-th of 50 evenly spaced y between [min_Y] and [max_Y]; the first grid
    point is the corner [(min_X, min_Y)], the last one [(max_X, max_Y)]. *)
Theorem grid_point_coordinates
  (Y : list (list R)) (min_X min_Y max_X max_Y : R) :
  search_space Y = Ok (min_X, min_Y, max_X, max_Y) ->
  exists grid,
    make_grid Y = Ok grid
    /\ (forall i j, (i < 50)%nat -> (j < 50)%nat ->
          nth (i * 50 + j) grid (0, 0)
          = (min_X + INR j * ((max_X - min_X) / 49),
             min_Y + INR i * ((max_Y - min_Y) / 49)))
    /\ nth 0 grid (0, 0) = (min_X, min_Y)
    /\ nth (50 * 50 - 1) grid (0, 0) = (max_X, max_Y).
Proof.
  intros Hspace.
  exists (flat_map (fun y => map (fun x => (x, y)) (linspace min_X max_X N))
            (linspace min_Y max_Y N)).
  split; [now apply make_grid_value|].
  assert (Hpoint : forall i j, (i < 50)%nat -> (j < 50)%nat ->
            nth (i * 50 + j)
              (flat_map (fun y => map (fun x => (x, y)) (linspace min_X max_X N))
                 (linspace min_Y max_Y N)) (0, 0)
            = (min_X + INR j * ((max_X - min_X) / 49),
               min_Y + INR i * ((max_Y - min_Y) / 49))).
  { intros i j Hi Hj.
    replace 50%nat with (length (linspace min_X max_X N)) at 1
      by apply linspace_length.
    rewrite mesh_points_nth by (rewrite linspace_length; exact Hi || exact Hj).
    change N with (S (S 48)). rewrite !linspace_nth by lia.
    replace (INR 49) with 49 by (simpl; lra). reflexivity. }
  split; [exact Hpoint|]. split.
  - eapply eq_trans; [exact (Hpoint 0%nat 0%nat ltac:(lia) ltac:(lia))|].
    simpl. f_equal; lra.
  - eapply eq_trans; [exact (Hpoint 49%nat 49%nat ltac:(lia) ltac:(lia))|].
    replace (INR 49) with 49 by (simpl; lra). f_equal; field.
Qed.

Lemma grid_point_coordinates_witness :
  exists grid,
    make_grid [[0; 4; 2]; [1; 3; 5]] = Ok grid
    /\ nth 0 grid (0, 0) = (0, 1)
    /\ nth (50 * 50 - 1) grid (0, 0) = (4, 5).
Proof.
  destruct (grid_point_coordinates [[0; 4; 2]; [1; 3; 5]] 0 1 4 5)
    as (grid & Hgrid & _ & Hfirst & Hlast).
  - unfold search_space, getitem, amin, amax. simpl.
    rewrite (Rmin_left 0 4), (Rmin_left 0 2), (Rmin_left 1 3), (Rmin_left 1 5),
      (Rmax_right 0 4), (Rmax_left 4 2), (Rmax_right 1 3), (Rmax_right 3 5)
      by lra.
    reflexivity.
  - exists grid. auto.
Defined.





(** ** Bounds on the localization error *)










(** ** The fitting loop: when it returns, and the order of [GP_index] *)

Lemma column_Ok_inv {A : Type} (a : list (list A)) (j : nat) (c : list A) :
  column a j = Ok c ->
  length c = length a /\ forall row, In row a -> (j < length row)%nat.
Proof.
  revert c. induction a as [|row a IH]; intros c H; simpl in H.
  - inversion H. split; [reflexivity|]. intros row [].
  - apply bind_Ok in H as (x & Hx & H). apply bind_Ok in H as (c' & Hc' & H).
    inversion H; subst. destruct (IH c' Hc') as [Hlen Hrows].
    split; [simpl; now rewrite Hlen|].
    intros r [<-|Hr]; [|now apply Hrows].
    now destruct (getitem_nth _ _ _ x Hx).
Qed.

Lemma compress_Ok_inv {A : Type} (a : list A) (mask : list bool) (r : list A) :
  compress a mask = Ok r -> length a = length mask.
Proof.
  revert mask r. induction a as [|x a IH]; intros [|b mask] r H; simpl in H;
    try discriminate; [reflexivity|].
  apply bind_Ok in H as (r' & Hr' & _). simpl. f_equal. eauto.
Qed.

Lemma filter_seq_sorted (f : nat -> bool) (start len : nat) :
  StronglySorted lt (filter f (seq start len)).
Proof.
  revert start. induction len as [|len IH]; intros start; simpl; [constructor|].
  destruct (f start); [|apply IH].
  constructor; [apply IH|].
  apply Forall_forall. intros x Hx. apply filter_In in Hx as [Hx _].
  apply in_seq in Hx. lia.
Qed.

Lemma fit_GPs_Ok_inv
  (gp : GPlib) (X_train : list coord) (Y_train : list (list npfloat)) (num_AP : nat)
  (r : list (GPmodel gp) * list nat) :
  fit_GPs gp X_train Y_train num_AP = Ok r ->
  num_AP <> 0%nat ->
  length X_train = length Y_train
  /\ forall row, In row Y_train -> (num_AP <= length row)%nat.
Proof.
  intros Hr Hne. unfold fit_GPs in Hr.
  assert (Hstep : forall i, (i < num_AP)%nat ->
            length X_train = length Y_train
            /\ forall row, In row Y_train -> (i < length row)%nat).
  { intros i Hi.
    destruct (for_each_Ok_inv _ _ _ _ Hr i) as (s1 & s2 & Hbody).
    { unfold range. apply in_seq. lia. }
    unfold fit_body in Hbody.
    apply bind_Ok in Hbody as (col & Hcol & Hbody).
    apply bind_Ok in Hbody as (X & HX & _).
    destruct (column_Ok_inv _ _ _ Hcol) as [Hlen Hrows].
    apply compress_Ok_inv in HX. rewrite length_map, Hlen in HX. auto. }
  split.
  - apply (Hstep 0%nat). lia.
  - intros row Hrow.
    destruct (Hstep (num_AP - 1)%nat) as [_ H]; [lia|].
    specialize (H row Hrow). lia.
Qed.

Lemma fit_GPs_Ok_value
  (gp : GPlib) (X_train : list coord) (Y_train : list (list npfloat)) (num_AP : nat)
  (GP : list (GPmodel gp)) (GP_index : list nat) :
  fit_GPs gp X_train Y_train num_AP = Ok (GP, GP_index) ->
  GP_index = filter (fitted_AP Y_train) (range num_AP)
  /\ GP = map (regressor_of gp X_train Y_train) GP_index.
Proof.
  intros Hrun.
  assert (Hval : fit_GPs gp X_train Y_train num_AP
                 = Ok (map (regressor_of gp X_train Y_train)
                         (filter (fitted_AP Y_train) (range num_AP)),
                       filter (fitted_AP Y_train) (range num_AP))).
  { destruct (Nat.eq_dec num_AP 0) as [->|Hne]; [reflexivity|].
    destruct (fit_GPs_Ok_inv _ _ _ _ _ Hrun Hne) as [Hlen Hrows].
    now apply fit_GPs_value. }
  rewrite Hval in Hrun. inversion Hrun; subst. auto.
Qed.

(** With at least one training row, the fitting loop returns exactly when
    there is no access point, or the coordinates and the averaged RSS have as
    many rows and every row of averaged RSS has a column for each access
    point; otherwise indexing raises.  When it returns, [GP_index] is strictly
    increasing and [GP] has one regressor per entry. *)
Theorem fit_GPs_returns_iff_shapes_agree
  (gp : GPlib) (X_train : list coord) (Y_train : list (list npfloat)) (num_AP : nat) :
  Y_train <> [] ->
  ((exists r, fit_GPs gp X_train Y_train num_AP = Ok r)
   <-> (num_AP = 0%nat
        \/ (length X_train = length Y_train
            /\ forall row, In row Y_train -> (num_AP <= length row)%nat)))
  /\ (forall GP GP_index,
        fit_GPs gp X_train Y_train num_AP = Ok (GP, GP_index) ->
        StronglySorted lt GP_index
        /\ length GP = length GP_index
        /\ (length GP_index <= num_AP)%nat).
Proof.
  intros _. split; [split|].
  - intros (r & Hr). destruct (Nat.eq_dec num_AP 0) as [->|Hne]; [now left|].
    right. now apply (fit_GPs_Ok_inv gp X_train Y_train num_AP r).
  - intros [->|[Hlen Hrows]]; [now exists ([], [])|].
    eexists. now apply fit_GPs_value.
  - intros GP GP_index Hrun.
    destruct (fit_GPs_Ok_value _ _ _ _ _ _ Hrun) as [-> ->]. split; [|split].
    + apply filter_seq_sorted.
    + now rewrite length_map.
    + etransitivity; [apply filter_length_le|].
      unfold range. now rewrite length_seq.
Qed.

Lemma fit_GPs_returns_iff_shapes_agree_witness :
  exists GP,
    fit_GPs constant_regressor [(0, 0); (1, 0)] [[Num (-50); NaN]; [NaN; NaN]] 2
    = Ok (GP, []).
Proof.
  destruct (proj2 (proj1 (fit_GPs_returns_iff_shapes_agree constant_regressor
                            [(0, 0); (1, 0)] [[Num (-50); NaN]; [NaN; NaN]] 2
                            ltac:(discriminate))))
    as ([GP GP_index] & Hrun).
  - right. split; [reflexivity|].
    intros row [<-|[<-|[]]]; simpl; lia.
  - exists GP. rewrite Hrun. f_equal. f_equal.
    assert (Hval : fit_GPs constant_regressor [(0, 0); (1, 0)]
                     [[Num (-50); NaN]; [NaN; NaN]] 2 = Ok ([], []))
      by reflexivity.
    rewrite Hval in Hrun. now inversion Hrun.
Defined.

(** ** Too few training locations *)

Lemma count_true_le (mask : list bool) : (count_true mask <= length mask)%nat.
Proof. unfold count_true. apply filter_length_le. Qed.

Lemma map_const_range {A : Type} (a : A) (n : nat) :
  map (fun _ => a) (range n) = repeat a n.
Proof.
  unfold range. generalize 0%nat.
  induction n as [|n IH]; intros start; simpl; [reflexivity|]. now rewrite IH.
Qed.

Lemma MAP_estimate_no_regressor
  (g0 : coord) (rest : list coord) (mean var : list (list R))
  (Y_test : list (list npfloat)) (num : nat) :
  MAP_estimate (g0 :: rest) mean var [] 0 Y_test num = Ok g0.
Proof.
  unfold MAP_estimate, MAP_index.
  rewrite MAP_sum_value.
  - cbn [bind]. unfold score. cbn [range seq map Np.sum fold_right].
    rewrite map_const_range. cbn [length repeat argmax].
    now rewrite argmax_from_repeat.
  - intros k Hk. lia.
  - intros p k _ Hk. lia.
Qed.

(** A pass whose training part has at most 10 locations fits no regressor,
    and the scorer then places every test sample at the first grid point,
    whatever its readings. *)
Theorem few_training_locations_give_first_grid_point
  (gp : GPlib) (num_AP : nat) (g0 : coord) (rest : list coord)
  (X : list coord) (y : list (list npfloat)) (fold : list nat * list nat) :
  length X = length y ->
  (forall row, In row y -> length row = num_AP) ->
  (forall i, In i (fst fold) -> (i < length X)%nat) ->
  (forall i, In i (snd fold) -> (i < length X)%nat) ->
  (length (fst fold) <= 10)%nat ->
  cv_fold gp num_AP (g0 :: rest) X y fold
  = Ok (map (fun i => nth i X (0, 0)) (snd fold), repeat g0 (length (snd fold))).
Proof.
  intros Hlen Hrows Htrain Htest Hfew. unfold cv_fold.
  rewrite (take_value X (fst fold) (0, 0)) by exact Htrain. cbn [bind].
  rewrite (take_value X (snd fold) (0, 0)) by exact Htest. cbn [bind].
  rewrite (take_value y (fst fold) [])
    by (intros i Hi; rewrite <- Hlen; now apply Htrain).
  cbn [bind].
  rewrite (take_value y (snd fold) [])
    by (intros i Hi; rewrite <- Hlen; now apply Htest).
  cbn [bind].
  set (X_train := map (fun i => nth i X (0, 0)) (fst fold)).
  set (Y_train := map (fun i => nth i y []) (fst fold)).
  rewrite (fit_GPs_value gp X_train Y_train num_AP).
  2: { unfold X_train, Y_train. now rewrite !length_map. }
  2: { intros row Hrow. unfold Y_train in Hrow.
       apply in_map_iff in Hrow as (i & <- & Hi).
       rewrite (Hrows (nth i y [])); [lia|].
       apply nth_In. rewrite <- Hlen. now apply Htrain. }
  cbn [bind fst snd].
  assert (Hnone : filter (fitted_AP Y_train) (range num_AP) = []).
  { induction (range num_AP) as [|i l IH]; [reflexivity|]. simpl.
    assert (Hi : fitted_AP Y_train i = false).
    { unfold fitted_AP, support. apply Nat.ltb_ge.
      etransitivity; [apply count_true_le|].
      unfold Y_train. rewrite !length_map. exact Hfew. }
    now rewrite Hi. }
  rewrite Hnone. cbn [map length].
  rewrite (MAP_scorer_value _ _ _ _ _ _ _ (fun _ => g0)).
  - cbn [bind]. now rewrite map_const_range, length_map.
  - intros num _. apply MAP_estimate_no_regressor.
Qed.

Lemma few_training_locations_give_first_grid_point_witness :
  cv_fold constant_regressor 1 [(5, 5); (6, 6)] [(0, 0); (1, 1); (2, 2)]
    [[Num (-50)]; [Num (-60)]; [NaN]] ([0%nat; 2%nat], [1%nat])
  = Ok ([(1, 1)], [(5, 5)]).
Proof.
  apply (few_training_locations_give_first_grid_point constant_regressor 1
           (5, 5) [(6, 6)] [(0, 0); (1, 1); (2, 2)]
           [[Num (-50)]; [Num (-60)]; [NaN]] ([0%nat; 2%nat], [1%nat])).
  - reflexivity.
  - intros row [<-|[<-|[<-|[]]]]; reflexivity.
  - intros i [<-|[<-|[]]]; simpl; lia.
  - intros i [<-|[]]. simpl. lia.
  - simpl. lia.
Defined.

(** ** Fewer than ten locations *)

(** With fewer than 10 surveyed locations the cross-validation cell raises
    [ValueError] (the 10-fold split is refused), whatever the grid and the
    regression library. *)
Theorem cross_validation_needs_ten_locations
  (gp : GPlib) (num_AP : nat) (grid : list coord)
  (X_raw : list (list (list npfloat))) (xs ys : list R) (rest : list (list R)) :
  length xs = length X_raw ->
  length ys = length X_raw ->
  (forall scans, In scans X_raw -> length scans = num_AP) ->
  (length X_raw < 10)%nat ->
  cross_validation gp num_AP grid X_raw (xs :: ys :: rest) = Raise ValueError.
Proof.
  intros Hxs Hys Hshape Hfew.
  unfold cross_validation, num_loc_of, Y_new_of, getitem. cbn [nth_error bind].
  rewrite Hxs, (compute_X_mean_value X_raw num_AP Hshape). cbn [bind].
  set (X := combine xs ys : list coord).
  assert (HX : length X = length X_raw)
    by (unfold X, coord; rewrite length_combine; lia).
  change (combine xs ys) with X. rewrite HX.
  unfold KFold_split.
  destruct (Nat.ltb_spec (length X_raw) 10) as [_|Hge]; [reflexivity|lia].
Qed.

Lemma cross_validation_needs_ten_locations_witness :
  cross_validation constant_regressor 1 [(0, 0)]
    [[[Num (-50)]]; [[Num (-51)]]; [[Num (-52)]]] [[0; 1; 2]; [0; 0; 0]]
  = Raise ValueError.
Proof.
  apply (cross_validation_needs_ten_locations constant_regressor 1 [(0, 0)]
           [[[Num (-50)]]; [[Num (-51)]]; [[Num (-52)]]] [0; 1; 2] [0; 0; 0] []).
  - reflexivity.
  - reflexivity.
  - intros scans [<-|[<-|[<-|[]]]]; reflexivity.
  - simpl. lia.
Defined.

(** ** Readings meet the regressor of their own access point *)

Lemma map_range_nth {A B : Type} (h : A -> B) (l : list A) (d : A) :
  map (fun p => h (nth p l d)) (range (length l)) = map h l.
Proof.
  unfold range. rewrite <- (map_map (fun p => nth p l d) h). f_equal.
  apply (nth_ext _ _ d d).
  - now rewrite length_map, length_seq.
  - intros n Hn. rewrite length_map, length_seq in Hn.
    rewrite (nth_indep _ d ((fun p => nth p l d) 0%nat))
      by now rewrite length_map, length_seq.
    rewrite (map_nth (fun p => nth p l d)), seq_nth by exact Hn. reflexivity.
Qed.

Lemma predict_grid_entry (gp : GPlib) (f : nat -> GPmodel gp) (idx : list nat)
  (grid : list coord) (p k : nat) :
  (p < length grid)%nat -> (k < length idx)%nat ->
  getitem2 (fst (predict_grid gp (map f idx) grid)) p k
  = Ok (fst (predict gp (f (nth k idx 0%nat)) (nth p grid (0, 0))))
  /\ getitem2 (snd (predict_grid gp (map f idx) grid)) p k
     = Ok (snd (predict gp (f (nth k idx 0%nat)) (nth p grid (0, 0)))).
Proof.
  intros Hp Hk. unfold predict_grid, getitem2, getitem. simpl.
  rewrite !nth_error_map, (nth_error_nth' grid (0, 0) Hp). simpl.
  rewrite !nth_error_map, (nth_error_nth' idx 0%nat Hk). simpl. auto.
Qed.

(** Through fitting, prediction and scoring the access points stay aligned:
    the score of a grid point is the sum, over the fitted access points [i],
    of the log-density of the test sample's reading of [i] under the
    prediction of the regressor fitted for [i] (nothing for a NaN reading). *)
Theorem score_pairs_reading_with_own_regressor
  (gp : GPlib) (X_train : list coord) (Y_train Y_test : list (list npfloat))
  (num_AP num : nat) (grid : list coord)
  (GP : list (GPmodel gp)) (GP_index : list nat) :
  fit_GPs gp X_train Y_train num_AP = Ok (GP, GP_index) ->
  (forall m x, 0 < snd (predict gp m x)) ->
  (num < length Y_test)%nat ->
  (num_AP <= length (nth num Y_test []))%nat ->
  MAP_sum grid (fst (predict_grid gp GP grid)) (snd (predict_grid gp GP grid))
    GP_index (length GP) Y_test num
  = Ok (map (fun g =>
               Np.sum (map (fun i => AP_logpdf gp X_train Y_train Y_test num i g)
                         GP_index))
          grid).
Proof.
  intros Hfit Hvar Hnum Hrow.
  destruct (fit_GPs_Ok_value _ _ _ _ _ _ Hfit) as [Hindex HGP].
  assert (Hbelow : forall k, (k < length GP_index)%nat ->
            (nth k GP_index 0 < num_AP)%nat).
  { intros k Hk. assert (Hmem : In (nth k GP_index 0%nat) GP_index)
      by now apply nth_In.
    rewrite Hindex in Hmem at 2. apply filter_In in Hmem as [Hmem _].
    unfold range in Hmem. apply in_seq in Hmem. lia. }
  subst GP. rewrite length_map.
  set (reg := regressor_of gp X_train Y_train).
  rewrite MAP_sum_value.
  - f_equal. rewrite <- (map_range_nth _ grid (0, 0)).
    apply map_ext_in. intros p Hp. unfold range in Hp. apply in_seq in Hp.
    unfold score.
    rewrite <- (map_range_nth
                  (fun i => AP_logpdf gp X_train Y_train Y_test num i
                              (nth p grid (0, 0))) GP_index 0%nat).
    f_equal.
    apply map_ext_in. intros k Hk. unfold range in Hk. apply in_seq in Hk.
    destruct (predict_grid_entry gp reg GP_index grid p k) as [Hm Hv]; [lia|lia|].
    unfold contribution, AP_logpdf, observed.
    rewrite (getitem2_nth _ _ _ _ 0 Hm), (getitem2_nth _ _ _ _ 0 Hv).
    reflexivity.
  - intros k Hk. exists (nth k GP_index 0%nat).
    exists (nth (nth k GP_index 0%nat) (nth num Y_test []) NaN).
    split; [now apply getitem_lt|].
    unfold getitem2. rewrite (getitem_lt Y_test num []) by exact Hnum.
    cbn [bind]. apply getitem_lt. specialize (Hbelow k Hk). lia.
  - intros p k Hp Hk _.
    destruct (predict_grid_entry gp reg GP_index grid p k Hp Hk) as [Hm Hv].
    eexists. eexists. split; [exact Hm|]. split; [exact Hv|]. apply Hvar.
Qed.

Lemma score_pairs_reading_with_own_regressor_witness :
  let X_train := repeat (0, 0) 11 in
  let Y_train := repeat [Num (-50)] 11 in
  let GP := [regressor_of constant_regressor X_train Y_train 0] in
  MAP_sum [(0, 0); (1, 1)]
    (fst (predict_grid constant_regressor GP [(0, 0); (1, 1)]))
    (snd (predict_grid constant_regressor GP [(0, 0); (1, 1)]))
    [0%nat] 1 [[Num (-48)]] 0
  = Ok (map (fun g =>
               Np.sum (map (fun i => AP_logpdf constant_regressor X_train Y_train
                                       [[Num (-48)]] 0 i g) [0%nat]))
          [(0, 0); (1, 1)]).
Proof.
  intros X_train Y_train GP.
  apply (score_pairs_reading_with_own_regressor constant_regressor
           X_train Y_train [[Num (-48)]] 1 0 [(0, 0); (1, 1)] GP [0%nat]).
  - reflexivity.
  - intros m x. simpl. lra.
  - simpl. lia.
  - simpl. lia.
Defined.

(** ** Every location is tested once *)





(** ** Where a sample without usable readings is placed *)

Lemma MAP_estimate_all_missing
  (g0 : coord) (rest : list coord) (mean var : list (list R))
  (GP_index : list nat) (GP_num : nat) (Y_test : list (list npfloat)) (num : nat) :
  (forall k, (k < GP_num)%nat ->
     exists gi, getitem GP_index k = Ok gi /\ getitem2 Y_test num gi = Ok NaN) ->
  MAP_estimate (g0 :: rest) mean var GP_index GP_num Y_test num = Ok g0.
Proof.
  intros Hnan.
  assert (Hobs : forall k, (k < GP_num)%nat -> observed GP_index Y_test num k = NaN).
  { intros k Hk. destruct (Hnan k Hk) as (gi & Hgi & Ho). unfold observed.
    destruct (getitem_nth _ _ _ 0%nat Hgi) as [-> _]. now apply getitem2_nth. }
  unfold MAP_estimate, MAP_index. rewrite MAP_sum_value.
  - cbn [bind].
    rewrite (map_zero_range (score mean var GP_index GP_num Y_test num)
               (length (g0 :: rest))).
    + cbn [length zeros repeat argmax]. unfold zeros. cbn [repeat argmax].
      now rewrite argmax_from_repeat.
    + intros p _. unfold score. apply sum_map_zero. intros k Hk.
      apply in_seq in Hk. unfold contribution. now rewrite Hobs by lia.
  - intros k Hk. destruct (Hnan k Hk) as (gi & Hgi & Ho). now exists gi, NaN.
  - intros p k _ Hk Hne. now rewrite Hobs in Hne.
Qed.

(** On the grid the notebook builds, a test sample that has no reading from
    any fitted access point is reported at [(min_X, min_Y)], the corner of
    the bounding box of the surveyed locations, whatever the predictions. *)
Theorem unobserved_sample_placed_at_corner
  (Y : list (list R)) (min_X min_Y max_X max_Y : R) (grid : list coord)
  (mean var : list (list R)) (GP_index : list nat) (GP_num : nat)
  (Y_test : list (list npfloat)) (num : nat) :
  search_space Y = Ok (min_X, min_Y, max_X, max_Y) ->
  make_grid Y = Ok grid ->
  (forall k, (k < GP_num)%nat ->
     exists gi, getitem GP_index k = Ok gi /\ getitem2 Y_test num gi = Ok NaN) ->
  MAP_estimate grid mean var GP_index GP_num Y_test num = Ok (min_X, min_Y).
Proof.
  intros Hspace Hgrid Hnan.
  set (xs := linspace min_X max_X N). set (ys := linspace min_Y max_Y N).
  assert (Hg : grid = flat_map (fun y => map (fun x => (x, y)) xs) ys).
  { pose proof (make_grid_value Y min_X min_Y max_X max_Y Hspace) as Hvalue.
    rewrite Hgrid in Hvalue. fold xs ys in Hvalue.
    generalize dependent (flat_map (fun y => map (fun x => (x, y)) xs) ys).
    intros l Hvalue. now injection Hvalue. }
  subst grid.
  assert (Hxs : length xs = 50%nat) by apply linspace_length.
  assert (Hys : length ys = 50%nat) by apply linspace_length.
  assert (Hfirst : nth 0 (flat_map (fun y => map (fun x => (x, y)) xs) ys) (0, 0)
                   = (min_X, min_Y)).
  { change 0%nat with (0 * length xs + 0)%nat at 1.
    rewrite mesh_points_nth by lia. unfold xs, ys.
    change N with (S (S 48)). rewrite !linspace_nth by lia. simpl INR.
    f_equal; lra. }
  assert (Hlen : length (flat_map (fun y => map (fun x => (x, y)) xs) ys)
                 = 2500%nat)
    by (rewrite mesh_points_length, Hxs, Hys; reflexivity).
  destruct (flat_map (fun y => map (fun x => (x, y)) xs) ys) as [|g0 rest];
    [discriminate|].
  simpl in Hfirst. subst g0.
  now apply MAP_estimate_all_missing.
Qed.

Lemma unobserved_sample_placed_at_corner_witness :
  exists grid,
    make_grid [[2; 4; 3]; [7; 5; 9]] = Ok grid
    /\ MAP_estimate grid [] [] [1%nat] 1 [[Num (-60); NaN]] 0 = Ok (2, 5).
Proof.
  assert (Hspace : search_space [[2; 4; 3]; [7; 5; 9]] = Ok (2, 5, 4, 9)).
  { unfold search_space, getitem. cbn [nth_error bind amin amax fold_left].
    rewrite (Rmin_left 2 4), (Rmin_left 2 3), (Rmin_right 7 5), (Rmin_left 5 9),
      (Rmax_right 2 4), (Rmax_left 4 3), (Rmax_left 7 5), (Rmax_right 7 9)
      by lra.
    reflexivity. }
  exists (flat_map (fun y => map (fun x => (x, y)) (linspace 2 4 N))
            (linspace 5 9 N)).
  split; [now apply make_grid_value|].
  apply (unobserved_sample_placed_at_corner [[2; 4; 3]; [7; 5; 9]] 2 5 4 9).
  - exact Hspace.
  - now apply make_grid_value.
  - intros k Hk. exists 1%nat. destruct k; [split; reflexivity|lia].
Defined.
